(** * IPTC profile fuzzing harnesses: the adversarial record generator

    Shallow embedding of [oss-fuzz/iptc_profile_advanced_fuzzer.cc],
    [oss-fuzz/iptc_profile_fuzzer.cc] and of [IsInvalidSize] from
    [oss-fuzz/utils.cc].

    Conventions.
    - [uint8_t], [uint16_t] and [size_t] values are integers of [Z]; every
      conversion to one of these types is written out as a reduction modulo
      [2^8], [2^16] or [2^64] (LP64: [size_t] has 64 bits).
    - The input buffer is [Data : list byte] together with [Size : Z], as in
      the C++ signature.  [Data[i]] is a partial operation: reading at an index
      that is not inside the buffer has no result.
    - The generator threads the read cursor [dataOffset] and the growing
      vector [iptcProfile] through a small monad of its own; a read outside
      the buffer makes the whole computation fail.
    - The Magick++ library is not part of the repository: the entry points
      are embedded over an arbitrary library, which decides call by call
      whether a [Magick::Exception] is thrown.
    - The corpus generators ([GenerateIPTCTestCase], [GenerateIPTCTestCases]
      and the two [main] functions) are embedded over the same kind of
      library; their effects also record the files written and the lines
      printed on [std::cout] and [std::cerr].  The fixed-size C arrays are
      modelled with their bounds: a store outside [iptcData[1024]] has no
      result, and [snprintf] keeps the 255 characters that fit
      [filename[256]]. *)

From Stdlib Require Import String.
From Stdlib Require Import ZArith List Lia Bool.
From Stdlib.Strings Require Import Byte.
From Stdlib Require DecimalString.
Import ListNotations.
Open Scope Z_scope.
Set Warnings "-notation-for-abbreviation".

(** ** Machine integers *)

Definition to_uint8 (z : Z) : Z := z mod 2 ^ 8.
Definition to_uint16 (z : Z) : Z := z mod 2 ^ 16.
Definition to_size_t (z : Z) : Z := z mod 2 ^ 64.
Definition SIZE_MAX : Z := 2 ^ 64 - 1.

(** The value of an input byte, as the [int] it is promoted to. *)
Definition byte_val (b : byte) : Z := Z.of_N (Byte.to_N b).

(** ** utils.cc *)

(** [static bool IsInvalidSize(const size_t size, const size_t min = 1)] *)
Definition IsInvalidSize (size min : Z) : bool :=
  if size <? min then true
  else if size >? 8192 then true
  else false.

(** ** The generator's monad

    The generator reads [Data] through the cursor [dataOffset] and only ever
    appends to [iptcProfile], which starts empty and is returned at the end.
    A computation takes the cursor and gives, unless a read fails, its
    result, the new cursor and the bytes it pushed onto the vector. *)

Definition M (A : Type) : Type := Z -> option (A * Z * list Z).

Definition ret {A} (a : A) : M A := fun o => Some (a, o, []).

Definition bind {A B} (m : M A) (f : A -> M B) : M B :=
  fun o => match m o with
           | Some (a, o1, out1) =>
               match f a o1 with
               | Some (b, o2, out2) => Some (b, o2, out1 ++ out2)
               | None => None
               end
           | None => None
           end.

Notation "x <- m ;; k" := (bind m (fun x => k))
  (at level 61, m at next level, right associativity).
Notation "m ;;; k" := (bind m (fun _ => k))
  (at level 61, right associativity).

Definition get_dataOffset : M Z := fun o => Some (o, o, []).

Definition set_dataOffset (o' : Z) : M unit := fun _ => Some (tt, o', []).

(** [iptcProfile.push_back(x)]: the argument is converted to [uint8_t]. *)
Definition push_back (x : Z) : M unit := fun o => Some (tt, o, [to_uint8 x]).

Definition IPTC_SENTINEL : Z := 0x1c.

Section Generator.

Variable Data : list byte.
Variable Size : Z.

(** [Data[i]]: defined only inside the buffer. *)
Definition index (i : Z) : M Z :=
  fun o => if i <? 0 then None
           else match nth_error Data (Z.to_nat i) with
                | Some b => Some (byte_val b, o, [])
                | None => None
                end.

(** [Data[dataOffset++]] *)
Definition next_byte : M Z :=
  o <- get_dataOffset ;;
  b <- index o ;;
  set_dataOffset (to_size_t (o + 1)) ;;;
  ret b.

(** [(dataOffset < Size) ? Data[dataOffset++] : dflt] *)
Definition next_byte_or (dflt : Z) : M Z :=
  o <- get_dataOffset ;;
  if o <? Size then next_byte else ret dflt.

(** [for (size_t k = 0; k < bound && dataOffset < Size; k++)
      iptcProfile.push_back(Data[dataOffset++]);]
    The argument counts the iterations that [k < bound] still allows. *)
Fixpoint copy_bytes (bound : nat) : M unit :=
  match bound with
  | O => ret tt
  | S bound' =>
      o <- get_dataOffset ;;
      if o <? Size then
        b <- next_byte ;;
        push_back b ;;;
        copy_bytes bound'
      else ret tt
  end.

(** [for (size_t j = actualLength; j < length; j++)
      iptcProfile.push_back('A' + (j % 26));]
    [todo] is [length - j]. *)
Fixpoint pad_pattern (todo : nat) (j : Z) : M unit :=
  match todo with
  | O => ret tt
  | S todo' =>
      push_back (to_size_t (65 + j mod 26)) ;;;
      pad_pattern todo' (to_size_t (j + 1))
  end.

(** Lines 76-82: the length read from the input. *)
Definition read_length : M Z :=
  o <- get_dataOffset ;;
  if to_size_t (o + 1) <? Size then
    hi <- index o ;;
    lo <- index (to_size_t (o + 1)) ;;
    set_dataOffset (to_size_t (o + 2)) ;;;
    ret (to_uint16 (Z.lor (Z.shiftl (to_uint16 hi) 8) lo))
  else if o <? Size then
    next_byte
  else ret 0.

(** Lines 85-94: the override of the first record's length. *)
Definition override_length (i length : Z) : M Z :=
  if (i =? 0) && (Size >? 4) then
    d3 <- index 3 ;;
    if d3 mod 4 =? 0 then ret 0xFFFF
    else
      d3 <- index 3 ;;
      if d3 mod 4 =? 1 then ret 0xFFF0
      else
        d3 <- index 3 ;;
        if d3 mod 4 =? 2 then ret 0x7FFF
        else ret length
  else ret length.

(** Lines 64-111: the body of the main loop, for loop index [i]. *)
Definition emit_base_record (i : Z) : M unit :=
  push_back IPTC_SENTINEL ;;;
  dataset <- next_byte_or 2 ;;
  push_back dataset ;;;
  record <- next_byte_or 5 ;;
  push_back record ;;;
  length <- read_length ;;
  length <- override_length i length ;;
  push_back (Z.land (Z.shiftr length 8) 0xFF) ;;;
  push_back (Z.land length 0xFF) ;;;
  o <- get_dataOffset ;;
  let actualLength := Z.min length (to_size_t (Size - o)) in
  copy_bytes (Z.to_nat actualLength) ;;;
  if actualLength <? length
  then pad_pattern (Z.to_nat (length - actualLength)) actualLength
  else ret tt.

(** [for (size_t i = 0; i < numRecords && dataOffset < Size; i++) ...]
    [todo] is [numRecords - i]. *)
Fixpoint main_loop (todo : nat) (i : Z) : M unit :=
  match todo with
  | O => ret tt
  | S todo' =>
      o <- get_dataOffset ;;
      if o <? Size then
        emit_base_record i ;;;
        main_loop todo' (to_size_t (i + 1))
      else ret tt
  end.

(** Line 60: [(Size > 0) ? (Data[0] % 10) + 1 : 1] *)
Definition numRecords : M Z :=
  if Size >? 0 then
    d0 <- index 0 ;;
    ret (to_size_t (d0 mod 10 + 1))
  else ret 1.

(** Lines 115-123: a sentinel without record structure. *)
Definition inject_orphan_sentinel : M unit :=
  if Size >? 5 then
    d4 <- index 4 ;;
    if d4 mod 4 =? 0 then
      push_back IPTC_SENTINEL ;;;
      copy_bytes 10
    else ret tt
  else ret tt.

(** Lines 126-140: declared length 1000, at most 20 bytes of data. *)
Definition inject_excess_length : M unit :=
  if Size >? 6 then
    d5 <- index 5 ;;
    if d5 mod 4 =? 1 then
      push_back IPTC_SENTINEL ;;;
      push_back 2 ;;;
      push_back 5 ;;;
      let excessLength := to_uint16 1000 in
      push_back (Z.land (Z.shiftr excessLength 8) 0xFF) ;;;
      push_back (Z.land excessLength 0xFF) ;;;
      copy_bytes 20
    else ret tt
  else ret tt.

(** Lines 143-156: declared length zero, followed by data. *)
Definition inject_zero_length : M unit :=
  if Size >? 7 then
    d6 <- index 6 ;;
    if d6 mod 4 =? 2 then
      push_back IPTC_SENTINEL ;;;
      push_back 2 ;;;
      push_back 5 ;;;
      push_back 0 ;;;
      push_back 0 ;;;
      copy_bytes 10
    else ret tt
  else ret tt.

(** [for (int i = 0; i < 5; i++) iptcProfile.push_back(IPTC_SENTINEL);] *)
Fixpoint push_sentinels (todo : nat) : M unit :=
  match todo with
  | O => ret tt
  | S todo' => push_back IPTC_SENTINEL ;;; push_sentinels todo'
  end.

(** Lines 159-168: consecutive sentinels. *)
Definition inject_sentinel_flood : M unit :=
  if Size >? 8 then
    d7 <- index 7 ;;
    if d7 mod 4 =? 3 then
      push_sentinels 5 ;;;
      copy_bytes 10
    else ret tt
  else ret tt.

(** Lines 57-112: the declarations and the main record loop. *)
Definition base_records : M unit :=
  n <- numRecords ;;
  set_dataOffset 1 ;;;
  main_loop (Z.to_nat n) 0.

(** Lines 115-156: the three injections ahead of the sentinel flood. *)
Definition early_injections : M unit :=
  inject_orphan_sentinel ;;;
  inject_excess_length ;;;
  inject_zero_length.

(** The vector that a computation started on the fresh function state
    leaves behind. *)
Definition vector_of {A} (m : M A) : option (list Z) :=
  match m 0 with
  | Some (_, _, out) => Some out
  | None => None
  end.

(** [static std::vector<uint8_t>
     CreateMalformedIPTCProfile(const uint8_t *Data, size_t Size)] *)
Definition CreateMalformedIPTCProfile : option (list Z) :=
  vector_of (base_records ;;; early_injections ;;; inject_sentinel_flood).

(** The vector as it stands when the main loop is left (line 112). *)
Definition main_loop_output : option (list Z) :=
  vector_of base_records.

End Generator.

(** ** The Magick++ library, as the harnesses use it

    The harnesses never look at what a library call returns: only whether a
    call throws decides what they do next.  The library is therefore an
    arbitrary function [lib] that says, from the calls made so far and the
    call being made, whether that call throws a [Magick::Exception]. *)

Inductive MagickException : Type :=
| MagickError (what : string).

(** The library calls of the two harnesses, with the C++ object they are
    made on. *)
Inductive Call : Type :=
| NewImage (width height : Z) (color : string)
    (* Magick::Image(Magick::Geometry(w, h), Magick::Color(c)) *)
| NewEmptyImage                                   (* Magick::Image() *)
| CopyImage (obj : string)                        (* Magick::Image c = obj *)
| NewBlob (bytes : list Z)                        (* Magick::Blob(p, n) *)
| NewEmptyBlob                                    (* Magick::Blob() *)
| SetProfile (obj name : string) (bytes : list Z) (* obj.profile(name, blob) *)
| GetProfile (obj name : string)                  (* obj.profile(name) *)
| WriteBlob (obj format : string)                 (* obj.write(&blob, format) *)
| ReadBlob (obj : string)                         (* obj.read(blob) *)
| Identify (obj : string)                         (* obj.identify() *)
| Resize (obj : string) (width height : Z)        (* obj.resize(Geometry(w, h)) *)
| Attribute (obj name : string)                   (* obj.attribute(name) *)
| FileName (obj : string)                         (* obj.fileName() *)
| Format (obj : string)                           (* obj.format() *)
| ImageSize (obj : string).                       (* obj.size() *)

Definition Library : Type := list Call -> Call -> option MagickException.

(** How a piece of harness code ends: it completes with a value, it leaves
    with a [Magick::Exception] in flight, or it has read outside the input
    buffer. *)
Inductive Outcome (A : Type) : Type :=
| Returns (a : A)
| Throws (e : MagickException)
| Undefined.

Arguments Returns {A} a.
Arguments Throws {A} e.
Arguments Undefined {A}.

(** Harness code runs on the calls made so far and extends them. *)
Definition H (A : Type) : Type := list Call -> Outcome A * list Call.

Definition hret {A} (a : A) : H A := fun h => (Returns a, h).

Definition hbind {A B} (m : H A) (f : A -> H B) : H B :=
  fun h => match m h with
           | (Returns a, h') => f a h'
           | (Throws e, h') => (Throws e, h')
           | (Undefined, h') => (Undefined, h')
           end.

Notation "x <~ m ;; k" := (hbind m (fun x => k))
  (at level 61, m at next level, right associativity).
Notation "m >>> k" := (hbind m (fun _ => k))
  (at level 61, right associativity).

Definition call (lib : Library) (c : Call) : H unit :=
  fun h => (match lib h c with
            | Some e => Throws e
            | None => Returns tt
            end, h ++ [c]).

(** [try { body } catch (Magick::Exception &e) { }] *)
Definition try_catch (body : H unit) : H unit :=
  fun h => match body h with
           | (Throws _, h') => (Returns tt, h')
           | r => r
           end.

(** The generator's vector, or the undefined behaviour of a bad read. *)
Definition generated (v : option (list Z)) : H (list Z) :=
  fun h => match v with
           | Some out => (Returns out, h)
           | None => (Undefined, h)
           end.

(** [Magick::Blob(Data, Size)] holds the first [Size] bytes at [Data]. *)
Definition input_bytes (Data : list byte) (Size : Z) : list Z :=
  firstn (Z.to_nat Size) (map byte_val Data).

(** ** iptc_profile_fuzzer.cc *)

Module IptcProfileFuzzer.

Definition MIN_IPTC_SIZE : Z := 8.
Definition MAX_IPTC_SIZE : Z := 65536.

(** [extern "C" int LLVMFuzzerTestOneInput(const uint8_t *Data, size_t Size)]
    The two [std::cout.rdbuf] calls around the property queries are not
    library calls and are left out. *)
Definition LLVMFuzzerTestOneInput (lib : Library) (Data : list byte) (Size : Z)
  : H Z :=
  if IsInvalidSize Size MIN_IPTC_SIZE || (Size >? MAX_IPTC_SIZE) then hret 0
  else
    try_catch (
      call lib (NewImage 10 10 "white") >>>
      call lib (NewBlob (input_bytes Data Size)) >>>
      call lib (SetProfile "image" "iptc" (input_bytes Data Size)) >>>
      try_catch (
        call lib NewEmptyBlob >>>
        call lib (WriteBlob "image" "TIFF") >>>
        call lib NewEmptyImage >>>
        call lib (ReadBlob "newImage") >>>
        call lib (GetProfile "newImage" "iptc")) >>>
      try_catch (
        call lib (Attribute "image" "IPTC:*") >>>
        call lib (FileName "image") >>>
        call lib (Format "image") >>>
        call lib (ImageSize "image"))) >>>
    hret 0.

End IptcProfileFuzzer.

(** ** iptc_profile_advanced_fuzzer.cc: the entry point *)

Module IptcProfileAdvancedFuzzer.

Definition MIN_IPTC_SIZE : Z := 8.
Definition MAX_IPTC_SIZE : Z := 65536.

(** [extern "C" int LLVMFuzzerTestOneInput(const uint8_t *Data, size_t Size)]
    The two [std::cout.rdbuf] calls around [identify] are not library calls
    and are left out. *)
Definition LLVMFuzzerTestOneInput (lib : Library) (Data : list byte) (Size : Z)
  : H Z :=
  if IsInvalidSize Size MIN_IPTC_SIZE || (Size >? MAX_IPTC_SIZE) then hret 0
  else
    try_catch (
      call lib (NewImage 10 10 "white") >>>
      iptcProfile <~ generated (CreateMalformedIPTCProfile Data Size) ;;
      call lib (NewBlob iptcProfile) >>>
      call lib (SetProfile "image" "iptc" iptcProfile) >>>
      try_catch (
        call lib NewEmptyBlob >>>
        call lib (WriteBlob "image" "TIFF") >>>
        call lib NewEmptyImage >>>
        call lib (ReadBlob "newImage") >>>
        call lib (GetProfile "newImage" "iptc")) >>>
      try_catch (
        call lib (Identify "image")) >>>
      try_catch (
        call lib (CopyImage "image") >>>
        call lib (Resize "clonedImage" 20 20) >>>
        call lib (GetProfile "clonedImage" "iptc")) >>>
      try_catch (
        call lib (NewBlob (input_bytes Data Size)) >>>
        call lib (SetProfile "image" "exif" (input_bytes Data Size)) >>>
        call lib NewEmptyBlob >>>
        call lib (SetProfile "image" "iptc" []) >>>
        call lib (SetProfile "image" "iptc" iptcProfile))) >>>
    hret 0.

End IptcProfileAdvancedFuzzer.

(** ** The corpus generators and their [main] functions

    [GenerateIPTCTestCase], [GenerateIPTCTestCases] and the two [main]
    functions write image files and report on the standard streams.  Their
    effects are the library calls of the harnesses, [Image::write] to a file
    name, and the lines printed on [std::cout] and [std::cerr].  As for the
    harnesses, the library is an arbitrary function that says, from the
    effects so far, whether a library call throws. *)

Inductive Effect : Type :=
| Magick (c : Call)                      (* a library call of the harnesses *)
| WriteFile (obj filename : string)      (* obj.write(filename) *)
| Cout (line : string)                   (* std::cout << ... << std::endl *)
| Cerr (line : string).                  (* std::cerr << ... << std::endl *)

Definition ToolLibrary : Type :=
  list Effect -> Effect -> option MagickException.

Definition Tool (A : Type) : Type := list Effect -> Outcome A * list Effect.

Definition tret {A} (a : A) : Tool A := fun h => (Returns a, h).

Definition tbind {A B} (m : Tool A) (f : A -> Tool B) : Tool B :=
  fun h => match m h with
           | (Returns a, h') => f a h'
           | (Throws e, h') => (Throws e, h')
           | (Undefined, h') => (Undefined, h')
           end.

Notation "m >>- k" := (tbind m (fun _ => k))
  (at level 61, right associativity).

(** A library call, which may throw. *)
Definition perform (lib : ToolLibrary) (e : Effect) : Tool unit :=
  fun h => (match lib h e with
            | Some x => Throws x
            | None => Returns tt
            end, h ++ [e]).

(** A line on a standard stream. *)
Definition print (e : Effect) : Tool unit := fun h => (Returns tt, h ++ [e]).

Definition undefined {A} : Tool A := fun h => (Undefined, h).

(** [e.what()] *)
Definition what (e : MagickException) : string :=
  match e with MagickError w => w end.

(** [try { body } catch (Magick::Exception &e) { handler e }] *)
Definition try_handle (body : Tool unit) (handler : MagickException -> Tool unit)
  : Tool unit :=
  fun h => match body h with
           | (Throws e, h') => handler e h'
           | r => r
           end.

(** [strlen] of a string literal, and its characters as [uint8_t] values. *)
Definition strlen (s : string) : Z := Z.of_nat (String.length s).

Definition chars (s : string) : list Z :=
  map (fun b => to_uint8 (byte_val b)) (list_byte_of_string s).

(** [operator<<] of a [size_t]: its decimal digits. *)
Definition decimal (n : Z) : string :=
  DecimalString.NilZero.string_of_uint (N.to_uint (Z.to_N n)).

(** ** iptc_profile_fuzzer.cc: [GenerateIPTCTestCase] and [main] *)

Module IptcProfileFuzzerTool.

(** The local array [uint8_t iptcData[1024]] and [size_t offset].  A store
    outside the array has no result. *)
Definition Array : Type := (list Z * Z)%type.

Definition Stmt : Type := Array -> option Array.

Definition seq (s1 s2 : Stmt) : Stmt :=
  fun a => match s1 a with
           | Some a' => s2 a'
           | None => None
           end.

Notation "s1 ;> s2" := (seq s1 s2) (at level 61, right associativity).

(** [iptcData[i] = v] *)
Definition store (i v : Z) (iptcData : list Z) : option (list Z) :=
  if (0 <=? i) && (i <? 1024) then
    Some (firstn (Z.to_nat i) iptcData ++
          to_uint8 v :: skipn (S (Z.to_nat i)) iptcData)
  else None.

(** [iptcData[offset++] = v] *)
Definition store_next (v : Z) : Stmt :=
  fun '(iptcData, offset) =>
    match store offset v iptcData with
    | Some iptcData' => Some (iptcData', to_size_t (offset + 1))
    | None => None
    end.

(** [memcpy(iptcData + offset, src, n)], byte by byte; [k] is the index of
    the next byte. *)
Fixpoint memcpy (src : list Z) (k : Z) : Stmt :=
  match src with
  | [] => fun a => Some a
  | v :: src' =>
      fun '(iptcData, offset) =>
        match store (offset + k) v iptcData with
        | Some iptcData' => memcpy src' (k + 1) (iptcData', offset)
        | None => None
        end
  end.

(** [offset += n] *)
Definition advance (n : Z) : Stmt :=
  fun '(iptcData, offset) => Some (iptcData, to_size_t (offset + n)).

(** [for (size_t i = 0; i < largeLen; i++)
      iptcData[offset++] = 'A' + (i % 26);]   [todo] is [largeLen - i]. *)
Fixpoint fill_pattern (todo : nat) (i : Z) : Stmt :=
  match todo with
  | O => fun a => Some a
  | S todo' =>
      store_next (to_size_t (65 + i mod 26)) ;>
      fill_pattern todo' (to_size_t (i + 1))
  end.

(** Lines 97-128: the two records written into [iptcData]. *)
Definition build_records : Stmt :=
  store_next 0x1c ;>
  store_next 0x02 ;>
  store_next 0x05 ;>
  let testString := "Test Image Name"%string in
  let stringLen := strlen testString in
  store_next (Z.land (Z.shiftr stringLen 8) 0xFF) ;>
  store_next (Z.land stringLen 0xFF) ;>
  memcpy (firstn (Z.to_nat stringLen) (chars testString)) 0 ;>
  advance stringLen ;>
  store_next 0x1c ;>
  store_next 0x02 ;>
  store_next 0x78 ;>
  let largeLen := 256 in
  store_next (Z.land (Z.shiftr largeLen 8) 0xFF) ;>
  store_next (Z.land largeLen 0xFF) ;>
  fill_pattern (Z.to_nat largeLen) 0.

(** [extern "C" void GenerateIPTCTestCase(const char* filename)]
    [garbage] is what the uninitialised array holds on entry. *)
Definition GenerateIPTCTestCase (lib : ToolLibrary) (garbage : list Z)
  (filename : string) : Tool unit :=
  match build_records (garbage, 0) with
  | None => undefined
  | Some (iptcData, offset) =>
      let blob := firstn (Z.to_nat offset) iptcData in
      try_handle (
        perform lib (Magick (NewImage 10 10 "white")) >>-
        perform lib (Magick (NewBlob blob)) >>-
        perform lib (Magick (SetProfile "image" "iptc" blob)) >>-
        perform lib (WriteFile "image" filename))
      (fun e =>
        print (Cerr ("Error generating test case: " ++ what e)))
  end.

(** [int main(int argc, char** argv)]: [argv] holds the [argc] arguments;
    [argv[argc]] is a null pointer. *)
Definition main (lib : ToolLibrary) (garbage : list Z) (argv : list string)
  : Tool Z :=
  if negb (Z.of_nat (length argv) =? 2) then
    match argv with
    | program :: _ =>
        print (Cerr ("Usage: " ++ program ++ " <output_file>")) >>-
        tret 1
    | [] => undefined
    end
  else
    match argv with
    | [_; filename] =>
        GenerateIPTCTestCase lib garbage filename >>-
        tret 0
    | _ => undefined
    end.

End IptcProfileFuzzerTool.

(** ** iptc_profile_advanced_fuzzer.cc: [GenerateIPTCTestCases] and [main] *)

Module IptcProfileAdvancedFuzzerTool.

(** [iptcData.push_back((n >> 8) & 0xFF); iptcData.push_back(n & 0xFF);] *)
Definition push_length (n : Z) : list Z :=
  [to_uint8 (Z.land (Z.shiftr n 8) 0xFF); to_uint8 (Z.land n 0xFF)].

(** [for (size_t i = 0; i < n; i++) iptcData.push_back('A' + (i % 26));] *)
Fixpoint push_pattern (todo : nat) (i : Z) : list Z :=
  match todo with
  | O => []
  | S todo' =>
      to_uint8 (to_size_t (65 + i mod 26)) ::
      push_pattern todo' (to_size_t (i + 1))
  end.

(** [for (size_t i = 0; i < n; i++) iptcData.push_back('A' + i);] *)
Fixpoint push_letters (todo : nat) (i : Z) : list Z :=
  match todo with
  | O => []
  | S todo' =>
      to_uint8 (to_size_t (65 + i)) :: push_letters todo' (to_size_t (i + 1))
  end.

(** [for (size_t i = 0; i < n; i++) iptcData.push_back(c);] *)
Definition push_fill (n : nat) (c : Z) : list Z := repeat (to_uint8 c) n.

(** [for (size_t i = 0; i < strlen(s); i++) iptcData.push_back(s[i]);] *)
Definition push_string (s : string) : list Z :=
  firstn (Z.to_nat (strlen s)) (chars s).

(** Test case 1: basic valid IPTC profile. *)
Definition test_case_1 : list Z :=
  [to_uint8 0x1c; to_uint8 0x02; to_uint8 0x05] ++
  push_length (strlen "Test Image Name") ++
  push_string "Test Image Name".

(** Test case 2: maximum length field, 1000 bytes of data. *)
Definition test_case_2 : list Z :=
  [to_uint8 0x1c; to_uint8 0x02; to_uint8 0x78] ++
  push_length (to_uint16 0xFFFF) ++
  push_pattern 1000 0.

(** Test case 3: two records. *)
Definition test_case_3 : list Z :=
  [to_uint8 0x1c; to_uint8 0x02; to_uint8 0x05] ++
  push_length (strlen "Test Name") ++
  push_string "Test Name" ++
  [to_uint8 0x1c; to_uint8 0x02; to_uint8 0x78] ++
  push_length (strlen "Test Caption") ++
  push_string "Test Caption".

(** Test case 4: declared length 100, ten bytes of data. *)
Definition test_case_4 : list Z :=
  [to_uint8 0x1c; to_uint8 0x02; to_uint8 0x05] ++
  push_length (to_uint16 100) ++
  push_fill 10 88.

(** Test case 5: invalid sentinel. *)
Definition test_case_5 : list Z :=
  [to_uint8 0x1d; to_uint8 0x02; to_uint8 0x05] ++
  push_length (to_uint16 10) ++
  push_fill (Z.to_nat (to_uint16 10)) 89.

(** Test case 6: zero length, data follows. *)
Definition test_case_6 : list Z :=
  [to_uint8 0x1c; to_uint8 0x02; to_uint8 0x05] ++
  [to_uint8 0x00; to_uint8 0x00] ++
  push_fill 10 90.

(** Test case 7: consecutive sentinels. *)
Definition test_case_7 : list Z :=
  push_fill 5 0x1c ++ push_letters 10 0.

(** Test case 8: length field 0xFFFF, twenty bytes of data. *)
Definition test_case_8 : list Z :=
  [to_uint8 0x1c; to_uint8 0x02; to_uint8 0x05] ++
  [to_uint8 0xFF; to_uint8 0xFF] ++
  push_fill 20 79.

Definition testCases : list (list Z) :=
  [test_case_1; test_case_2; test_case_3; test_case_4;
   test_case_5; test_case_6; test_case_7; test_case_8].

(** [snprintf(filename, sizeof(filename), "%s/iptc_test_case_%zu.tiff",
             directory, n)] with [char filename[256]]: at most 255
    characters are kept. *)
Definition snprintf_filename (directory : string) (n : Z) : string :=
  substring 0 255
    (directory ++ "/iptc_test_case_" ++ decimal n ++ ".tiff").

(** The body of the loop over [testCases], for index [i]. *)
Definition write_test_case (lib : ToolLibrary) (directory : string)
  (testCase : list Z) (i : Z) : Tool unit :=
  try_handle (
    let filename := snprintf_filename directory (to_size_t (i + 1)) in
    perform lib (Magick (NewImage 10 10 "white")) >>-
    perform lib (Magick (NewBlob testCase)) >>-
    perform lib (Magick (SetProfile "image" "iptc" testCase)) >>-
    perform lib (WriteFile "image" filename) >>-
    print (Cout ("Generated test case: " ++ filename)))
  (fun e =>
    print (Cerr ("Error generating test case "
                 ++ decimal (to_size_t (i + 1)) ++ ": " ++ what e))).

(** [for (size_t i = 0; i < testCases.size(); i++) ...]: [cases] are the
    test cases from index [i] on. *)
Fixpoint write_test_cases (lib : ToolLibrary) (directory : string)
  (cases : list (list Z)) (i : Z) : Tool unit :=
  match cases with
  | [] => tret tt
  | testCase :: cases' =>
      write_test_case lib directory testCase i >>-
      write_test_cases lib directory cases' (to_size_t (i + 1))
  end.

(** [extern "C" void GenerateIPTCTestCases(const char* directory)] *)
Definition GenerateIPTCTestCases (lib : ToolLibrary) (directory : string)
  : Tool unit :=
  write_test_cases lib directory testCases 0.

(** [int main(int argc, char** argv)] *)
Definition main (lib : ToolLibrary) (argv : list string) : Tool Z :=
  if negb (Z.of_nat (length argv) =? 2) then
    match argv with
    | program :: _ =>
        print (Cerr ("Usage: " ++ program ++ " <output_directory>")) >>-
        tret 1
    | [] => undefined
    end
  else
    match argv with
    | [_; directory] =>
        GenerateIPTCTestCases lib directory >>-
        tret 0
    | _ => undefined
    end.

End IptcProfileAdvancedFuzzerTool.

(** ** Vocabulary of the statements

    The definitions from here to the proofs are not code of the repository.
    They name what the statements speak about: valid buffers, bytes and
    slices of the input, and the layout of the output in closed form.  The
    proofs show that the embedded generator computes exactly this layout
    ([emit_base_record_spec], [main_loop_spec],
    [CreateMalformedIPTCProfile_layout]). *)

(** The caller's contract ([LLVMFuzzerTestOneInput] gets it from the fuzz
    engine): [Data] points to exactly [Size] bytes, and a buffer cannot fill
    the whole address space. *)
Definition valid_buffer (Data : list byte) (Size : Z) : Prop :=
  Size = Z.of_nat (length Data) /\ Size < SIZE_MAX.

(** Total read, for statements about bytes known to be inside the buffer. *)
Definition at_ (Data : list byte) (i : Z) : Z :=
  byte_val (nth (Z.to_nat i) Data x00).

(** [count] consecutive input bytes starting at index [from] (fewer when the
    buffer ends first). *)
Definition slice (Data : list byte) (from : Z) (count : nat) : list Z :=
  map byte_val (firstn count (skipn (Z.to_nat from) Data)).

(** The alphabetic pattern for payload indices [j, j+1, ..., j+count-1]. *)
Fixpoint pattern (count : nat) (j : Z) : list Z :=
  match count with
  | O => []
  | S count' => (65 + j mod 26) :: pattern count' (j + 1)
  end.

(** The vector contents [out] pushed before a computation finished with [r]. *)
Definition prepend {B} (out : list Z) (r : option (B * Z * list Z)) :
  option (B * Z * list Z) :=
  match r with
  | Some (b, o2, out2) => Some (b, o2, out ++ out2)
  | None => None
  end.

(** The length field as the input gives it when the cursor stands at [q]:
    two unread bytes are a big-endian 16-bit value, a single unread byte is
    the value itself, no unread byte gives 0. *)
Definition derived_length (Data : list byte) (Size q : Z) : Z :=
  if q + 1 <? Size then 256 * at_ Data q + at_ Data (q + 1)
  else if q <? Size then at_ Data q
  else 0.

(** The length field that record [i] declares, from the length [len] that
    the input gives. *)
Definition declared_length (Data : list byte) (Size i len : Z) : Z :=
  if (i =? 0) && (4 <? Size) then
    if at_ Data 3 mod 4 =? 0 then 0xFFFF
    else if at_ Data 3 mod 4 =? 1 then 0xFFF0
    else if at_ Data 3 mod 4 =? 2 then 0x7FFF
    else len
  else len.

(** ** Base records *)

(** A base record as it lies in the output: the fields of its header, the
    payload bytes copied from the input and the padding after them.
    [br_cursor] is the read cursor when the record was begun and
    [br_payload] the cursor when its payload was begun. *)
Record BaseRecord : Type := mkBaseRecord {
  br_cursor : Z;
  br_dataset : Z;
  br_record : Z;
  br_length : Z;
  br_payload : Z;
  br_real : list Z;
  br_pad : list Z
}.

Definition br_bytes (r : BaseRecord) : list Z :=
  [IPTC_SENTINEL; br_dataset r; br_record r;
   br_length r / 256; br_length r mod 256] ++ br_real r ++ br_pad r.

(** The cursor after the record. *)
Definition br_end (r : BaseRecord) : Z :=
  br_payload r + Z.of_nat (length (br_real r)).

(** The record that iteration [i] of the main loop lays out when it starts
    with the cursor at [o]. *)
Definition record_at (Data : list byte) (Size i o : Z) : BaseRecord :=
  let q := Z.min (o + 2) Size in
  let p := Z.min (q + 2) Size in
  let len := declared_length Data Size i (derived_length Data Size q) in
  let n := Nat.min (Z.to_nat len) (Z.to_nat (Size - p)) in
  {| br_cursor := o;
     br_dataset := at_ Data o;
     br_record := if o + 1 <? Size then at_ Data (o + 1) else 5;
     br_length := len;
     br_payload := p;
     br_real := slice Data p n;
     br_pad := pattern (Z.to_nat len - n) (Z.of_nat n) |}.

(** The records of [todo] further iterations. *)
Fixpoint records_from (Data : list byte) (Size : Z) (todo : nat) (i o : Z)
  : list BaseRecord :=
  match todo with
  | O => []
  | S todo' =>
      if o <? Size then
        let r := record_at Data Size i o in
        r :: records_from Data Size todo' (i + 1) (br_end r)
      else []
  end.

(** The cursor after a run of records begun at [o]. *)
Definition cursor_after (o : Z) (recs : list BaseRecord) : Z :=
  fold_left (fun _ r => br_end r) recs o.

(** The number of records asked for (line 60). *)
Definition record_count (Data : list byte) (Size : Z) : Z :=
  if 0 <? Size then at_ Data 0 mod 10 + 1 else 1.

(** The base records of an input. *)
Definition base_records_of (Data : list byte) (Size : Z) : list BaseRecord :=
  records_from Data Size (Z.to_nat (record_count Data Size)) 0 1.

(** The gate of an injection: enough input, and the residue of its byte. *)
Definition gate (Data : list byte) (Size : Z) (k residue : Z) : bool :=
  (k + 1 <? Size) && (at_ Data k mod 4 =? residue).

(** An injection that is switched on writes its fixed bytes and then at most
    [bound] input bytes from the cursor. *)
Definition injected (Data : list byte) (on : bool) (fixed : list Z)
  (bound : nat) (o : Z) : list Z :=
  if on then fixed ++ slice Data o bound else [].

Definition cursor_injected (Size : Z) (on : bool) (bound : nat) (o : Z) : Z :=
  if on then o + Z.of_nat (Nat.min bound (Z.to_nat (Size - o))) else o.

(** The three injections ahead of the sentinel flood, from cursor [o]. *)
Definition early_cursor (Data : list byte) (Size o : Z) : Z :=
  let o1 := cursor_injected Size (gate Data Size 4 0) 10 o in
  let o2 := cursor_injected Size (gate Data Size 5 1) 20 o1 in
  cursor_injected Size (gate Data Size 6 2) 10 o2.

Definition early_injected (Data : list byte) (Size o : Z) : list Z :=
  let o1 := cursor_injected Size (gate Data Size 4 0) 10 o in
  let o2 := cursor_injected Size (gate Data Size 5 1) 20 o1 in
  injected Data (gate Data Size 4 0) [IPTC_SENTINEL] 10 o ++
  injected Data (gate Data Size 5 1) [IPTC_SENTINEL; 2; 5; 3; 232] 20 o1 ++
  injected Data (gate Data Size 6 2) [IPTC_SENTINEL; 2; 5; 0; 0] 10 o2.

(** The sentinel flood, from cursor [o]. *)
Definition flood_injected (Data : list byte) (Size o : Z) : list Z :=
  injected Data (gate Data Size 7 3) (repeat IPTC_SENTINEL 5) 10 o.

(** The records read the input one after the other, the first from [o]. *)
Fixpoint chained (o : Z) (recs : list BaseRecord) : Prop :=
  match recs with
  | [] => True
  | r :: recs' => br_cursor r = o /\ chained (br_end r) recs'
  end.

(** A base record that is laid out over the input as the loop body does it:
    it begins inside the input, its payload begins after the (at most four)
    header bytes read from the input, the payload's real bytes are the input
    bytes from there on, as many as the length field and the input allow, and
    the whole payload is as long as the length field says. *)
Definition base_record_wf (Data : list byte) (Size : Z) (r : BaseRecord)
  : Prop :=
  0 <= br_cursor r < Size /\
  br_payload r = Z.min (br_cursor r + 4) Size /\
  0 <= br_length r < 65536 /\
  br_real r =
    slice Data (br_payload r)
      (Z.to_nat (Z.min (br_length r) (Size - br_payload r))) /\
  Z.of_nat (length (br_real r ++ br_pad r)) = br_length r.

(** [recs] are the base records of the input: the main loop's output is
    their bytes one after the other, and they read the input one after the
    other from cursor 1. *)
Definition base_records_layout (Data : list byte) (Size : Z)
  (recs : list BaseRecord) : Prop :=
  main_loop_output Data Size = Some (concat (map br_bytes recs)) /\
  chained 1 recs /\
  Forall (base_record_wf Data Size) recs.

(** Harness code that never reads outside the input buffer. *)
Definition defined {A} (m : H A) : Prop :=
  forall h, fst (m h) <> Undefined.

(** Harness code only adds calls to those made so far. *)
Definition extends {A} (m : H A) : Prop :=
  forall h, exists t, snd (m h) = h ++ t.

(** ** Vocabulary for the corpus generators *)

(** The array [iptcData] and [offset] once the bytes [w] have been written
    at the start of the array; behind them the array is as on entry. *)
Definition written (garbage w : list Z) : IptcProfileFuzzerTool.Array :=
  (w ++ skipn (length w) garbage, Z.of_nat (length w)).

(** The profile [GenerateIPTCTestCase] builds: the record "Test Image Name"
    and a record of 256 pattern bytes. *)
Definition basic_profile : list Z :=
  [IPTC_SENTINEL; 2; 5; 0; 15] ++ chars "Test Image Name" ++
  [IPTC_SENTINEL; 2; 120; 1; 0] ++ pattern 256 0.

(** The library calls inside the [try] block of both generators. *)
Definition profile_calls (blob : list Z) (filename : string) : list Effect :=
  [Magick (NewImage 10 10 "white"); Magick (NewBlob blob);
   Magick (SetProfile "image" "iptc" blob); WriteFile "image" filename].

(** [calls] one after the other, then [last]. *)
Fixpoint perform_each (lib : ToolLibrary) (calls : list Effect)
  (last : Tool unit) : Tool unit :=
  match calls with
  | [] => last
  | c :: calls' => perform lib c >>- perform_each lib calls' last
  end.

(** Started after the effects [h], the first [k] of [calls] return. *)
Definition all_return (lib : ToolLibrary) (h calls : list Effect) (k : nat)
  : Prop :=
  forall j c, (j < k)%nat -> nth_error calls j = Some c ->
              lib (h ++ firstn j calls) c = None.

(** ... and call number [k] (from 0) throws [e]. *)
Definition throws_at (lib : ToolLibrary) (h calls : list Effect) (k : nat)
  (e : MagickException) : Prop :=
  exists c, nth_error calls k = Some c /\ lib (h ++ firstn k calls) c = Some e.

(** What a [try] block with the calls [calls] and its handler add to the
    effects [h]: either every call returns and [success] follows, or the
    calls stop with the first one that throws and the handler's line
    follows. *)
Definition attempt (lib : ToolLibrary) (h calls success : list Effect)
  (failure : MagickException -> Effect) (block : list Effect) : Prop :=
  (all_return lib h calls (length calls) /\ block = calls ++ success) \/
  (exists k e, all_return lib h calls k /\ throws_at lib h calls k e /\
               block = firstn (S k) calls ++ [failure e]).

(** One [attempt] for each of [cases], numbered from [n], one after the
    other. *)
Fixpoint attempts (lib : ToolLibrary) (directory : string)
  (cases : list (list Z)) (n : Z) (h : list Effect)
  (blocks : list (list Effect)) : Prop :=
  match cases, blocks with
  | [], [] => True
  | testCase :: cases', block :: blocks' =>
      let filename :=
        IptcProfileAdvancedFuzzerTool.snprintf_filename directory n in
      attempt lib h (profile_calls testCase filename)
        [Cout ("Generated test case: " ++ filename)]
        (fun e => Cerr ("Error generating test case "
                        ++ decimal n ++ ": " ++ what e))
        block /\
      attempts lib directory cases' (n + 1) (h ++ block) blocks'
  | _, _ => False
  end.

(** The lines on the standard streams. *)
Definition is_report (e : Effect) : bool :=
  match e with
  | Cout _ | Cerr _ => true
  | _ => false
  end.

(** The names of the files written, in order. *)
Definition written_files (t : list Effect) : list string :=
  flat_map (fun e => match e with
                     | WriteFile _ filename => [filename]
                     | _ => []
                     end) t.

(** * Proofs *)

(** ** The monad's equations *)

Lemma bind_step {A B} (m : M A) (f : A -> M B) o a o1 out1 :
  m o = Some (a, o1, out1) -> bind m f o = prepend out1 (f a o1).
Proof. intros H. unfold bind, prepend. now rewrite H. Qed.

Lemma prepend_nil {B} (r : option (B * Z * list Z)) : prepend [] r = r.
Proof. now destruct r as [[[b o2] out2]|]. Qed.

Lemma prepend_Some {B} out (b : B) o2 out2 :
  prepend out (Some (b, o2, out2)) = Some (b, o2, out ++ out2).
Proof. reflexivity. Qed.

Lemma bind_push_step {B} (f : unit -> M B) x o :
  bind (push_back x) f o = prepend [to_uint8 x] (f tt o).
Proof. reflexivity. Qed.

Lemma bind_get {B} (f : Z -> M B) o : bind get_dataOffset f o = f o o.
Proof. unfold bind, get_dataOffset. cbn. now destruct (f o o) as [[[b o2] out2]|]. Qed.

Lemma bind_set {B} (f : unit -> M B) o o' :
  bind (set_dataOffset o') f o = f tt o'.
Proof. unfold bind, set_dataOffset. cbn. now destruct (f tt o') as [[[b o2] out2]|]. Qed.

Lemma same_result {A} (a : A) (o o' : Z) (out : list Z) :
  o = o' -> Some (a, o, out) = Some (a, o', out).
Proof. now intros ->. Qed.

(** ** Machine-integer facts *)

Lemma byte_val_range b : 0 <= byte_val b < 256.
Proof.
  unfold byte_val. pose proof (Byte.to_N_bounded b). lia.
Qed.

Lemma to_uint8_small z : 0 <= z < 256 -> to_uint8 z = z.
Proof. intros. unfold to_uint8. now apply Z.mod_small. Qed.

Lemma to_uint16_small z : 0 <= z < 65536 -> to_uint16 z = z.
Proof. intros. unfold to_uint16. now apply Z.mod_small. Qed.

Lemma to_size_t_small z : 0 <= z <= SIZE_MAX -> to_size_t z = z.
Proof. unfold to_size_t, SIZE_MAX. intros. apply Z.mod_small. lia. Qed.

Lemma high_byte z : Z.land (Z.shiftr z 8) 0xFF = (z / 256) mod 256.
Proof.
  rewrite Z.shiftr_div_pow2 by lia.
  change 0xFF with (Z.ones 8). rewrite Z.land_ones by lia. reflexivity.
Qed.

Lemma low_byte z : Z.land z 0xFF = z mod 256.
Proof. change 0xFF with (Z.ones 8). now rewrite Z.land_ones by lia. Qed.

Lemma big_endian_16 hi lo :
  0 <= hi < 256 -> 0 <= lo < 256 ->
  to_uint16 (Z.lor (Z.shiftl (to_uint16 hi) 8) lo) = 256 * hi + lo.
Proof.
  intros Hhi Hlo. rewrite (to_uint16_small hi) by lia.
  rewrite Z.shiftl_mul_pow2 by lia.
  assert (D : Z.land (hi * 2 ^ 8) lo = 0).
  { apply Z.bits_inj'. intros n Hn.
    rewrite Z.land_spec, Z.bits_0, <- Z.shiftl_mul_pow2 by lia.
    destruct (Z.lt_ge_cases n 8) as [L | G].
    - rewrite Z.shiftl_spec_low by assumption. reflexivity.
    - rewrite <- (Z.mod_small lo (2 ^ 8)) by lia.
      rewrite Z.mod_pow2_bits_high by lia. apply andb_false_r. }
  rewrite <- Z.lxor_lor, <- Z.add_nocarry_lxor by assumption.
  change (2 ^ 8) with 256. rewrite to_uint16_small by lia. lia.
Qed.

(** ** What each step of the generator does on a valid buffer *)

Section Steps.

Variable Data : list byte.
Variable Size : Z.
Hypothesis Hvalid : valid_buffer Data Size.

Lemma Size_nonneg : 0 <= Size.
Proof. destruct Hvalid as [-> _]. lia. Qed.

Lemma at_range i : 0 <= at_ Data i < 256.
Proof. apply byte_val_range. Qed.

Lemma index_spec i o :
  0 <= i < Size -> index Data i o = Some (at_ Data i, o, []).
Proof.
  intros Hi. unfold index, at_.
  destruct (Z.ltb_spec i 0); [lia|].
  destruct Hvalid as [HS _].
  destruct (nth_error Data (Z.to_nat i)) as [b|] eqn:E.
  - now rewrite (nth_error_nth _ _ x00 E).
  - apply nth_error_None in E. lia.
Qed.

Lemma next_byte_spec o :
  0 <= o < Size -> next_byte Data o = Some (at_ Data o, o + 1, []).
Proof.
  intros Ho. unfold next_byte. rewrite bind_get.
  destruct Hvalid as [_ HM].
  erewrite bind_step, prepend_nil by (apply index_spec; lia).
  rewrite bind_set, to_size_t_small by lia. reflexivity.
Qed.

Lemma next_byte_or_spec dflt o :
  0 <= o <= Size ->
  next_byte_or Data Size dflt o =
    Some (if o <? Size then at_ Data o else dflt, Z.min (o + 1) Size, []).
Proof.
  intros Ho. unfold next_byte_or. rewrite bind_get.
  destruct (Z.ltb_spec o Size).
  - rewrite next_byte_spec by lia. now rewrite Z.min_l by lia.
  - unfold ret. apply same_result. lia.
Qed.

Lemma slice_cons o k :
  0 <= o < Size ->
  slice Data o (S k) = at_ Data o :: slice Data (o + 1) k.
Proof.
  intros Ho. unfold slice, at_. destruct Hvalid as [HS _].
  replace (Z.to_nat (o + 1)) with (S (Z.to_nat o)) by lia.
  assert (L : (Z.to_nat o < length Data)%nat) by lia.
  revert L. generalize (Z.to_nat o) as n. clear.
  induction Data as [|b l IH]; intros n L; simpl in L; [lia|].
  destruct n as [|n]; [reflexivity|].
  simpl skipn at 1. simpl nth. rewrite IH by lia. reflexivity.
Qed.

Lemma length_slice o k :
  0 <= o <= Size ->
  length (slice Data o k) = Nat.min k (Z.to_nat (Size - o)).
Proof.
  intros Ho. unfold slice. destruct Hvalid as [HS _].
  rewrite length_map, length_firstn, length_skipn. lia.
Qed.

Lemma slice_min o k :
  0 <= o <= Size ->
  slice Data o (Nat.min k (Z.to_nat (Size - o))) = slice Data o k.
Proof.
  intros Ho. unfold slice. destruct Hvalid as [HS _]. f_equal.
  destruct (Nat.le_ge_cases k (Z.to_nat (Size - o))) as [L | G].
  - now rewrite Nat.min_l.
  - rewrite Nat.min_r by assumption.
    rewrite !firstn_all2; [reflexivity | |]; rewrite length_skipn; lia.
Qed.

(** The copy loops: as many bytes as the bound and the buffer allow. *)
Lemma copy_bytes_spec bound o :
  0 <= o <= Size ->
  let k := Nat.min bound (Z.to_nat (Size - o)) in
  copy_bytes Data Size bound o = Some (tt, o + Z.of_nat k, slice Data o k).
Proof.
  revert o. induction bound as [|n IH]; intros o Ho k.
  - subst k. simpl. unfold ret. now rewrite Z.add_0_r.
  - cbn [copy_bytes]. rewrite bind_get.
    destruct (Z.ltb_spec o Size) as [L | G].
    + erewrite bind_step, prepend_nil by (apply next_byte_spec; lia).
      rewrite bind_push_step, IH, prepend_Some by lia.
      subst k. simpl app.
      replace (Nat.min (S n) (Z.to_nat (Size - o)))
        with (S (Nat.min n (Z.to_nat (Size - (o + 1))))) by lia.
      rewrite slice_cons, to_uint8_small by (lia || apply at_range).
      apply same_result. lia.
    + subst k. replace (Z.to_nat (Size - o)) with O by lia.
      rewrite Nat.min_0_r. unfold ret. now rewrite Z.add_0_r.
Qed.

(** The padding loop writes the pattern and leaves the cursor alone. *)
Lemma pad_pattern_spec todo j o :
  0 <= j -> j + Z.of_nat todo <= SIZE_MAX ->
  pad_pattern todo j o = Some (tt, o, pattern todo j).
Proof.
  revert j. induction todo as [|n IH]; intros j Hj Hn; [reflexivity|].
  assert (0 <= j mod 26 < 26) by (apply Z.mod_pos_bound; lia).
  cbn [pad_pattern pattern]. rewrite bind_push_step.
  rewrite !to_size_t_small by (unfold SIZE_MAX in *; lia).
  rewrite IH, prepend_Some, to_uint8_small by lia. reflexivity.
Qed.

Lemma read_length_spec o :
  0 <= o <= Size ->
  read_length Data Size o =
    Some (derived_length Data Size o, Z.min (o + 2) Size, []).
Proof.
  intros Ho. unfold read_length, derived_length. rewrite bind_get.
  destruct Hvalid as [_ HM].
  rewrite (to_size_t_small (o + 1)) by lia.
  destruct (Z.ltb_spec (o + 1) Size) as [L1 | G1].
  - erewrite bind_step, prepend_nil by (apply index_spec; lia).
    erewrite bind_step, prepend_nil by (apply index_spec; lia).
    rewrite bind_set. unfold ret.
    rewrite to_size_t_small, big_endian_16 by (lia || apply at_range).
    now rewrite Z.min_l by lia.
  - destruct (Z.ltb_spec o Size) as [L | G].
    + rewrite next_byte_spec by lia. apply same_result. lia.
    + unfold ret. apply same_result. lia.
Qed.

Lemma override_length_spec i len o :
  override_length Data Size i len o =
    Some (declared_length Data Size i len, o, []).
Proof.
  unfold override_length, declared_length.
  rewrite (Z.gtb_ltb Size 4).
  destruct ((i =? 0) && (4 <? Size)) eqn:G; [|reflexivity].
  apply andb_true_iff in G. destruct G as [_ G]. apply Z.ltb_lt in G.
  erewrite bind_step, prepend_nil by (apply index_spec; lia).
  destruct (at_ Data 3 mod 4 =? 0); [reflexivity|].
  erewrite bind_step, prepend_nil by (apply index_spec; lia).
  destruct (at_ Data 3 mod 4 =? 1); [reflexivity|].
  erewrite bind_step, prepend_nil by (apply index_spec; lia).
  destruct (at_ Data 3 mod 4 =? 2); reflexivity.
Qed.

End Steps.

Section Records.

Variable Data : list byte.
Variable Size : Z.
Hypothesis Hvalid : valid_buffer Data Size.

Lemma derived_length_range q : 0 <= derived_length Data Size q < 65536.
Proof.
  unfold derived_length.
  pose proof (at_range Data q). pose proof (at_range Data (q + 1)).
  destruct (q + 1 <? Size); [lia|]. destruct (q <? Size); lia.
Qed.

Lemma declared_length_range i len :
  0 <= len < 65536 -> 0 <= declared_length Data Size i len < 65536.
Proof.
  intros H. unfold declared_length.
  destruct ((i =? 0) && (4 <? Size)); [|assumption].
  destruct (_ =? 0); [lia|]. destruct (_ =? 1); [lia|].
  destruct (_ =? 2); [lia|assumption].
Qed.

Lemma br_length_range i o : 0 <= br_length (record_at Data Size i o) < 65536.
Proof. apply declared_length_range, derived_length_range. Qed.

Lemma br_payload_range i o :
  0 <= o < Size ->
  o < br_payload (record_at Data Size i o) <= Size.
Proof. intros Ho. cbn [record_at br_payload]. lia. Qed.

Lemma br_end_range i o :
  0 <= o < Size -> o < br_end (record_at Data Size i o) <= Size.
Proof.
  intros Ho. pose proof (br_payload_range i o Ho) as Hp.
  unfold br_end. cbn [record_at br_real br_payload] in *.
  rewrite (length_slice Data Size Hvalid) by lia. lia.
Qed.

(** One iteration of the main loop writes exactly [record_at]. *)
Lemma emit_base_record_spec i o :
  0 <= o < Size ->
  let r := record_at Data Size i o in
  emit_base_record Data Size i o = Some (tt, br_end r, br_bytes r).
Proof.
  intros Ho r.
  pose proof (br_length_range i o) as Hlen. fold r in Hlen.
  pose proof (br_payload_range i o Ho) as Hp. fold r in Hp.
  destruct Hvalid as [HS HM].
  unfold emit_base_record.
  rewrite bind_push_step.
  erewrite bind_step, prepend_nil by (apply next_byte_or_spec; [exact Hvalid | lia]).
  rewrite bind_push_step.
  erewrite bind_step, prepend_nil by (apply next_byte_or_spec; [exact Hvalid | lia]).
  rewrite bind_push_step.
  erewrite bind_step, prepend_nil by (apply read_length_spec; [exact Hvalid | lia]).
  erewrite bind_step, prepend_nil by (apply override_length_spec; exact Hvalid).
  rewrite !bind_push_step, bind_get.
  destruct (Z.ltb_spec o Size) as [_ | ?]; [|lia].
  replace (Z.min (o + 1) Size) with (o + 1) by lia.
  replace (Z.min (o + 1 + 1) Size) with (Z.min (o + 2) Size) by lia.
  change (declared_length Data Size i
            (derived_length Data Size (Z.min (o + 2) Size)))
    with (br_length r).
  change (Z.min (Z.min (o + 2) Size + 2) Size) with (br_payload r).
  set (len := br_length r) in *. set (p := br_payload r) in *.
  rewrite (to_size_t_small (Size - p)) by lia.
  cbv zeta.
  erewrite bind_step by (apply copy_bytes_spec; [exact Hvalid | lia]).
  assert (En : Nat.min (Z.to_nat (Z.min len (Size - p))) (Z.to_nat (Size - p))
               = Nat.min (Z.to_nat len) (Z.to_nat (Size - p))) by lia.
  rewrite En.
  set (n := Nat.min (Z.to_nat len) (Z.to_nat (Size - p))).
  assert (Er : br_real r = slice Data p n) by reflexivity.
  assert (Ep : br_pad r = pattern (Z.to_nat len - n) (Z.of_nat n)) by reflexivity.
  assert (Ln : length (slice Data p n) = n).
  { rewrite (length_slice Data Size Hvalid) by lia. lia. }
  assert (Ee : br_end r = p + Z.of_nat n).
  { unfold br_end. fold p. now rewrite Er, Ln. }
  assert (Ea : Z.min len (Size - p) = Z.of_nat n) by lia.
  rewrite Ea.
  assert (R : (if Z.of_nat n <? len
               then pad_pattern (Z.to_nat (len - Z.of_nat n)) (Z.of_nat n)
               else ret tt) (p + Z.of_nat n)
              = Some (tt, p + Z.of_nat n, br_pad r)).
  { rewrite Ep. destruct (Z.ltb_spec (Z.of_nat n) len) as [L | G].
    - rewrite pad_pattern_spec by (unfold SIZE_MAX; lia).
      now replace (Z.to_nat (len - Z.of_nat n)) with (Z.to_nat len - n)%nat by lia.
    - now replace (Z.to_nat len - n)%nat with O by lia. }
  rewrite R, Ee, !prepend_Some. unfold br_bytes.
  pose proof (at_range Data o). pose proof (at_range Data (o + 1)).
  rewrite high_byte, low_byte, Er.
  rewrite !to_uint8_small;
    try (apply Z.mod_pos_bound; lia); try (unfold IPTC_SENTINEL; lia);
    try (destruct (o + 1 <? Size); lia).
  - rewrite (Z.mod_small (len / 256)) by (split; [apply Z.div_pos | apply Z.div_lt_upper_bound]; lia).
    reflexivity.
Qed.

End Records.

(** ** The main loop and the injections, whole *)

Section Whole.

Variable Data : list byte.
Variable Size : Z.
Hypothesis Hvalid : valid_buffer Data Size.

Lemma cursor_after_range todo : forall i o,
  0 <= o <= Size ->
  o <= cursor_after o (records_from Data Size todo i o) <= Size.
Proof.
  induction todo as [|n IH]; intros i o Ho; cbn [records_from].
  - cbn. lia.
  - destruct (Z.ltb_spec o Size) as [L | G]; [|cbn; lia].
    pose proof (br_end_range Data Size Hvalid i o ltac:(lia)) as He.
    cbn [cursor_after fold_left]. fold (cursor_after (br_end (record_at Data Size i o))
           (records_from Data Size n (i + 1) (br_end (record_at Data Size i o)))).
    specialize (IH (i + 1) (br_end (record_at Data Size i o)) ltac:(lia)). lia.
Qed.

Lemma main_loop_spec todo : forall i o,
  0 <= o <= Size -> 0 <= i -> i + Z.of_nat todo <= SIZE_MAX ->
  let recs := records_from Data Size todo i o in
  main_loop Data Size todo i o =
    Some (tt, cursor_after o recs, concat (map br_bytes recs)).
Proof.
  induction todo as [|n IH]; intros i o Ho Hi Hn; cbn [records_from main_loop];
    [reflexivity|].
  rewrite bind_get. cbv zeta.
  destruct (Z.ltb_spec o Size) as [L | G]; [|reflexivity].
  pose proof (br_end_range Data Size Hvalid i o ltac:(lia)) as He.
  erewrite bind_step by (apply emit_base_record_spec; [exact Hvalid | lia]).
  rewrite to_size_t_small by lia.
  rewrite IH, prepend_Some by lia. reflexivity.
Qed.

Lemma record_count_range : 1 <= record_count Data Size <= 10.
Proof.
  unfold record_count. destruct (0 <? Size); [|lia].
  pose proof (Z.mod_pos_bound (at_ Data 0) 10). lia.
Qed.

Lemma numRecords_spec o :
  numRecords Data Size o = Some (record_count Data Size, o, []).
Proof.
  unfold numRecords, record_count. rewrite Z.gtb_ltb.
  destruct (Z.ltb_spec 0 Size) as [L | G]; [|reflexivity].
  erewrite bind_step, prepend_nil by (apply (index_spec Data Size Hvalid); lia).
  pose proof (Z.mod_pos_bound (at_ Data 0) 10).
  unfold ret. rewrite to_size_t_small by (unfold SIZE_MAX; lia). reflexivity.
Qed.

Lemma base_records_spec o :
  1 < Size ->
  let recs := base_records_of Data Size in
  base_records Data Size o =
    Some (tt, cursor_after 1 recs, concat (map br_bytes recs)).
Proof.
  intros H1 recs. unfold base_records.
  rewrite (bind_step _ _ _ _ _ _ (numRecords_spec o)), prepend_nil, bind_set.
  pose proof record_count_range.
  apply main_loop_spec; unfold SIZE_MAX; lia.
Qed.

(** With fewer than two input bytes the loop guard fails at once. *)
Lemma base_records_short o :
  Size <= 1 -> base_records Data Size o = Some (tt, 1, []).
Proof.
  intros H1. unfold base_records.
  rewrite (bind_step _ _ _ _ _ _ (numRecords_spec o)), prepend_nil, bind_set.
  pose proof record_count_range.
  destruct (Z.to_nat (record_count Data Size)) as [|n] eqn:E; [lia|].
  cbn [main_loop]. rewrite bind_get.
  destruct (Z.ltb_spec 1 Size); [lia | reflexivity].
Qed.

Lemma push_sentinels_spec todo o :
  push_sentinels todo o = Some (tt, o, repeat IPTC_SENTINEL todo).
Proof.
  induction todo as [|n IH]; [reflexivity|].
  cbn [push_sentinels repeat]. now rewrite bind_push_step, IH.
Qed.

Lemma inject_orphan_sentinel_spec o :
  0 <= o <= Size ->
  let on := gate Data Size 4 0 in
  inject_orphan_sentinel Data Size o =
    Some (tt, cursor_injected Size on 10 o,
          injected Data on [IPTC_SENTINEL] 10 o).
Proof.
  intros Ho. unfold inject_orphan_sentinel, gate, injected, cursor_injected.
  rewrite Z.gtb_ltb. change (4 + 1) with 5.
  destruct (Z.ltb_spec 5 Size) as [L | G]; [|reflexivity].
  erewrite bind_step, prepend_nil by (apply (index_spec Data Size Hvalid); lia).
  cbn [andb]. destruct (_ =? 0); [|reflexivity].
  rewrite bind_push_step, (copy_bytes_spec Data Size Hvalid) by lia.
  rewrite (slice_min Data Size Hvalid) by lia. reflexivity.
Qed.

Lemma inject_excess_length_spec o :
  0 <= o <= Size ->
  let on := gate Data Size 5 1 in
  inject_excess_length Data Size o =
    Some (tt, cursor_injected Size on 20 o,
          injected Data on [IPTC_SENTINEL; 2; 5; 3; 232] 20 o).
Proof.
  intros Ho. unfold inject_excess_length, gate, injected, cursor_injected.
  rewrite Z.gtb_ltb. change (5 + 1) with 6.
  destruct (Z.ltb_spec 6 Size) as [L | G]; [|reflexivity].
  erewrite bind_step, prepend_nil by (apply (index_spec Data Size Hvalid); lia).
  cbn [andb]. destruct (_ =? 1); [|reflexivity].
  cbv zeta.
  rewrite !bind_push_step, (copy_bytes_spec Data Size Hvalid) by lia.
  rewrite (slice_min Data Size Hvalid) by lia. reflexivity.
Qed.

Lemma inject_zero_length_spec o :
  0 <= o <= Size ->
  let on := gate Data Size 6 2 in
  inject_zero_length Data Size o =
    Some (tt, cursor_injected Size on 10 o,
          injected Data on [IPTC_SENTINEL; 2; 5; 0; 0] 10 o).
Proof.
  intros Ho. unfold inject_zero_length, gate, injected, cursor_injected.
  rewrite Z.gtb_ltb. change (6 + 1) with 7.
  destruct (Z.ltb_spec 7 Size) as [L | G]; [|reflexivity].
  erewrite bind_step, prepend_nil by (apply (index_spec Data Size Hvalid); lia).
  cbn [andb]. destruct (_ =? 2); [|reflexivity].
  rewrite !bind_push_step, (copy_bytes_spec Data Size Hvalid) by lia.
  rewrite (slice_min Data Size Hvalid) by lia. reflexivity.
Qed.

Lemma inject_sentinel_flood_spec o :
  0 <= o <= Size ->
  let on := gate Data Size 7 3 in
  inject_sentinel_flood Data Size o =
    Some (tt, cursor_injected Size on 10 o,
          injected Data on (repeat IPTC_SENTINEL 5) 10 o).
Proof.
  intros Ho. unfold inject_sentinel_flood, gate, injected, cursor_injected.
  rewrite Z.gtb_ltb. change (7 + 1) with 8.
  destruct (Z.ltb_spec 8 Size) as [L | G]; [|reflexivity].
  erewrite bind_step, prepend_nil by (apply (index_spec Data Size Hvalid); lia).
  cbn [andb]. destruct (_ =? 3); [|reflexivity].
  erewrite bind_step by apply push_sentinels_spec.
  rewrite (copy_bytes_spec Data Size Hvalid) by lia.
  rewrite (slice_min Data Size Hvalid) by lia. reflexivity.
Qed.

Lemma cursor_injected_range on bound o :
  0 <= o <= Size -> o <= cursor_injected Size on bound o <= Size.
Proof. intros Ho. unfold cursor_injected. destruct on; lia. Qed.

End Whole.

Section Profile.

Variable Data : list byte.
Variable Size : Z.
Hypothesis Hvalid : valid_buffer Data Size.

Lemma early_cursor_range o :
  0 <= o <= Size -> o <= early_cursor Data Size o <= Size.
Proof.
  intros Ho. unfold early_cursor. cbv zeta.
  pose proof (cursor_injected_range Size (gate Data Size 4 0) 10 o Ho) as H1.
  pose proof (cursor_injected_range Size (gate Data Size 5 1) 20 _
                ltac:(split; [|apply H1]; lia)) as H2.
  pose proof (cursor_injected_range Size (gate Data Size 6 2) 10 _
                ltac:(split; [|apply H2]; lia)) as H3.
  lia.
Qed.

Lemma early_injections_spec o :
  0 <= o <= Size ->
  early_injections Data Size o =
    Some (tt, early_cursor Data Size o, early_injected Data Size o).
Proof.
  intros Ho. unfold early_injections, early_cursor, early_injected. cbv zeta.
  pose proof (cursor_injected_range Size (gate Data Size 4 0) 10 o Ho) as H1.
  pose proof (cursor_injected_range Size (gate Data Size 5 1) 20 _
                ltac:(split; [|apply H1]; lia)) as H2.
  erewrite bind_step by (apply inject_orphan_sentinel_spec; assumption).
  erewrite bind_step by (apply inject_excess_length_spec; [assumption | lia]).
  rewrite (inject_zero_length_spec Data Size Hvalid) by lia.
  reflexivity.
Qed.

(** The generator on an input of at least two bytes. *)
Lemma CreateMalformedIPTCProfile_spec :
  1 < Size ->
  let recs := base_records_of Data Size in
  let o := cursor_after 1 recs in
  CreateMalformedIPTCProfile Data Size =
    Some (concat (map br_bytes recs) ++
          early_injected Data Size o ++
          flood_injected Data Size (early_cursor Data Size o)).
Proof.
  intros H1 recs o.
  assert (Ho : 1 <= o <= Size).
  { apply (cursor_after_range Data Size Hvalid). lia. }
  pose proof (early_cursor_range o ltac:(lia)) as He.
  unfold CreateMalformedIPTCProfile, vector_of.
  erewrite bind_step by (apply base_records_spec; assumption).
  fold recs o.
  erewrite bind_step by (apply early_injections_spec; lia).
  rewrite (inject_sentinel_flood_spec Data Size Hvalid) by lia.
  reflexivity.
Qed.

Lemma main_loop_output_spec :
  1 < Size ->
  main_loop_output Data Size =
    Some (concat (map br_bytes (base_records_of Data Size))).
Proof.
  intros H1. unfold main_loop_output, vector_of.
  now rewrite (base_records_spec Data Size Hvalid) by assumption.
Qed.

Lemma gate_short k residue : Size <= k + 1 -> gate Data Size k residue = false.
Proof.
  intros H. unfold gate. destruct (Z.ltb_spec (k + 1) Size); [lia | reflexivity].
Qed.

(** The generator on an input of at most one byte. *)
Lemma CreateMalformedIPTCProfile_short :
  Size <= 1 -> CreateMalformedIPTCProfile Data Size = Some [].
Proof.
  intros H1. unfold CreateMalformedIPTCProfile, vector_of.
  erewrite bind_step by (apply base_records_short; assumption).
  unfold early_injections, inject_orphan_sentinel, inject_excess_length,
    inject_zero_length, inject_sentinel_flood.
  rewrite !Z.gtb_ltb.
  destruct (Z.ltb_spec 5 Size); [lia|]. destruct (Z.ltb_spec 6 Size); [lia|].
  destruct (Z.ltb_spec 7 Size); [lia|]. destruct (Z.ltb_spec 8 Size); [lia|].
  reflexivity.
Qed.

Lemma base_records_of_first :
  1 < Size ->
  exists rest,
    base_records_of Data Size = record_at Data Size 0 1 :: rest.
Proof.
  intros H1. unfold base_records_of.
  pose proof (record_count_range Data Size).
  destruct (Z.to_nat (record_count Data Size)) as [|n] eqn:E; [lia|].
  cbn [records_from]. destruct (Z.ltb_spec 1 Size); [|lia]. eauto.
Qed.

End Profile.

(** ** Reads that fail are reads outside the buffer *)

Lemma index_None_iff Data i o :
  index Data i o = None <-> ~ (0 <= i < Z.of_nat (length Data)).
Proof.
  unfold index. destruct (Z.ltb_spec i 0) as [L | G]; [split; [lia | reflexivity]|].
  destruct (nth_error Data (Z.to_nat i)) as [b|] eqn:E.
  - split; [discriminate|]. intros H. exfalso. apply H.
    assert (nth_error Data (Z.to_nat i) <> None) as N by congruence.
    apply nth_error_Some in N. lia.
  - apply nth_error_None in E. split; [lia | reflexivity].
Qed.

Lemma bind_None {A B} (m : M A) (f : A -> M B) o :
  m o = None -> bind m f o = None.
Proof. intros H. unfold bind. now rewrite H. Qed.

(** ** Facts about every base record *)

Section RecordFacts.

Variable Data : list byte.
Variable Size : Z.
Hypothesis Hvalid : valid_buffer Data Size.

Lemma records_from_Forall (P : BaseRecord -> Prop) :
  (forall i o, 0 <= o < Size -> P (record_at Data Size i o)) ->
  forall todo i o, 0 <= o <= Size ->
    Forall P (records_from Data Size todo i o).
Proof.
  intros HP. induction todo as [|n IH]; intros i o Ho; cbn [records_from];
    [constructor|].
  destruct (Z.ltb_spec o Size) as [L | G]; [|constructor].
  pose proof (br_end_range Data Size Hvalid i o ltac:(lia)).
  constructor; [apply HP | apply IH]; lia.
Qed.

Lemma records_from_chained todo : forall i o,
  chained o (records_from Data Size todo i o).
Proof.
  induction todo as [|n IH]; intros i o; cbn [records_from]; [exact I|].
  destruct (o <? Size); [|exact I]. split; [reflexivity | apply IH].
Qed.

Lemma length_records_from todo : forall i o,
  (length (records_from Data Size todo i o) <= todo)%nat.
Proof.
  induction todo as [|n IH]; intros i o; cbn [records_from]; [reflexivity|].
  destruct (o <? Size); cbn [length]; [|lia]. specialize (IH (i + 1) (br_end (record_at Data Size i o))). lia.
Qed.

Lemma base_records_of_short : Size <= 1 -> base_records_of Data Size = [].
Proof.
  intros H1. unfold base_records_of.
  destruct (Z.to_nat (record_count Data Size)); cbn [records_from];
    [reflexivity|].
  destruct (Z.ltb_spec 1 Size); [lia | reflexivity].
Qed.

Lemma base_records_of_Forall (P : BaseRecord -> Prop) :
  (forall i o, 0 <= o < Size -> P (record_at Data Size i o)) ->
  Forall P (base_records_of Data Size).
Proof.
  intros HP. destruct (Z.le_gt_cases Size 1) as [L | G].
  - rewrite base_records_of_short by assumption. constructor.
  - apply records_from_Forall; [assumption | lia].
Qed.

Lemma length_base_records_of : (length (base_records_of Data Size) <= 10)%nat.
Proof.
  unfold base_records_of. pose proof (record_count_range Data Size).
  etransitivity; [apply length_records_from | lia].
Qed.

(** The vector after the main loop, for every input. *)
Lemma main_loop_output_layout :
  main_loop_output Data Size =
    Some (concat (map br_bytes (base_records_of Data Size))).
Proof.
  destruct (Z.le_gt_cases Size 1) as [L | G].
  - rewrite base_records_of_short by assumption.
    unfold main_loop_output, vector_of.
    now rewrite (base_records_short Data Size Hvalid) by assumption.
  - apply main_loop_output_spec; [assumption | lia].
Qed.

(** The vector returned, for every input. *)
Lemma CreateMalformedIPTCProfile_layout :
  let recs := base_records_of Data Size in
  let o := cursor_after 1 recs in
  CreateMalformedIPTCProfile Data Size =
    Some (concat (map br_bytes recs) ++
          early_injected Data Size o ++
          flood_injected Data Size (early_cursor Data Size o)).
Proof.
  destruct (Z.le_gt_cases Size 1) as [L | G].
  - rewrite base_records_of_short by assumption. cbv zeta.
    rewrite (CreateMalformedIPTCProfile_short Data Size Hvalid) by assumption.
    unfold early_injected, flood_injected.
    rewrite !(gate_short Data Size) by lia. reflexivity.
  - apply CreateMalformedIPTCProfile_spec; [assumption | lia].
Qed.

Lemma length_pattern count : forall j, length (pattern count j) = count.
Proof. induction count as [|n IH]; intros j; cbn; [reflexivity | now rewrite IH]. Qed.

Lemma nth_pattern count : forall j k,
  (k < count)%nat -> nth k (pattern count j) 0 = 65 + (j + Z.of_nat k) mod 26.
Proof.
  induction count as [|n IH]; intros j k Hk; [lia|].
  destruct k as [|k]; cbn [pattern nth].
  - now rewrite Z.add_0_r.
  - rewrite IH by lia. do 2 f_equal. lia.
Qed.

(** The payload of a record: input bytes while there are any, then padding,
    together as long as the length field says. *)
Lemma record_at_payload i o :
  0 <= o < Size ->
  let r := record_at Data Size i o in
  let avail := Size - br_payload r in
  let n := Z.to_nat (Z.min (br_length r) avail) in
  br_real r = slice Data (br_payload r) n /\
  length (br_real r) = n /\
  br_pad r = pattern (Z.to_nat (br_length r) - n) (Z.of_nat n) /\
  Z.of_nat (length (br_real r ++ br_pad r)) = br_length r.
Proof.
  intros Ho r avail n.
  pose proof (br_length_range Data Size i o) as Hl. fold r in Hl.
  pose proof (br_payload_range Data Size i o Ho) as Hp. fold r in Hp.
  assert (En : Nat.min (Z.to_nat (br_length r)) (Z.to_nat (Size - br_payload r)) = n)
    by (subst n avail; lia).
  assert (Er : br_real r = slice Data (br_payload r) n).
  { rewrite <- En. reflexivity. }
  assert (Ep : br_pad r = pattern (Z.to_nat (br_length r) - n) (Z.of_nat n)).
  { rewrite <- En. reflexivity. }
  assert (Ln : length (br_real r) = n).
  { rewrite Er, (length_slice Data Size Hvalid) by lia. subst n avail. lia. }
  repeat split; try assumption.
  rewrite length_app, Ln, Ep, length_pattern. subst n avail. lia.
Qed.

Lemma record_at_wf i o :
  0 <= o < Size -> base_record_wf Data Size (record_at Data Size i o).
Proof.
  intros Ho. unfold base_record_wf.
  destruct (record_at_payload i o Ho) as (Er & _ & _ & El).
  split; [exact Ho|]. split; [cbn [record_at br_payload br_cursor]; lia|].
  split; [apply br_length_range|]. split; assumption.
Qed.

Lemma base_records_of_layout :
  base_records_layout Data Size (base_records_of Data Size).
Proof.
  split; [apply main_loop_output_layout|].
  split; [apply records_from_chained|].
  apply base_records_of_Forall, record_at_wf.
Qed.

End RecordFacts.

(** ** The layout of the base records is unique *)

Lemma app_same_length {A} (l1 l2 r1 r2 : list A) :
  length l1 = length l2 -> l1 ++ r1 = l2 ++ r2 -> l1 = l2 /\ r1 = r2.
Proof.
  revert l2. induction l1 as [|a l1 IH]; intros [|a' l2] Hl E;
    cbn in Hl; try discriminate.
  - now split.
  - cbn in E. injection E as -> E. destruct (IH l2 ltac:(lia) E) as [-> ->].
    now split.
Qed.

Lemma records_unique Data Size recs : forall recs' o,
  chained o recs -> chained o recs' ->
  Forall (base_record_wf Data Size) recs ->
  Forall (base_record_wf Data Size) recs' ->
  concat (map br_bytes recs) = concat (map br_bytes recs') ->
  recs = recs'.
Proof.
  induction recs as [|r recs IH]; intros [|r' recs'] o Hc Hc' Hw Hw' E;
    try reflexivity; try discriminate E.
  destruct Hc as [Ho Hc], Hc' as [Ho' Hc'].
  apply Forall_cons_iff in Hw, Hw'.
  destruct Hw as [(_ & Hp & Hl & Hr & Hn) Hw].
  destruct Hw' as [(_ & Hp' & Hl' & Hr' & Hn') Hw'].
  assert (Er : r = r').
  { destruct r as [c ds rc len p real pad], r' as [c' ds' rc' len' p' real' pad'].
    cbn [br_cursor br_payload br_length br_real br_pad] in *.
    cbn [map concat] in E. unfold br_bytes in E.
    cbn [br_dataset br_record br_length br_real br_pad app] in E.
    injection E as Eds Erc Ehi Elo E.
    assert (Elen : len' = len).
    { rewrite (Z.div_mod len 256), (Z.div_mod len' 256) by lia. congruence. }
    assert (Ec : c' = c) by congruence.
    assert (Ep : p' = p) by congruence.
    rewrite Elen, Ep in Hr'. rewrite <- Hr in Hr'.
    rewrite Hr' in E. rewrite <- !app_assoc in E. apply app_inv_head in E.
    rewrite !length_app, !Nat2Z.inj_add in Hn, Hn'.
    destruct (app_same_length pad pad' _ _ ltac:(rewrite Hr' in Hn'; lia) E)
      as [Epad _].
    congruence. }
  rewrite <- Er in *. f_equal.
  cbn [map concat] in E. apply app_inv_head in E.
  eapply IH; eassumption.
Qed.

(** The records of a layout are the ones the main loop wrote: there is no
    other way to cut its output into well laid out records. *)
Lemma base_records_layout_unique Data Size recs recs' :
  base_records_layout Data Size recs ->
  base_records_layout Data Size recs' ->
  recs = recs'.
Proof.
  intros (E & Hc & Hw) (E' & Hc' & Hw').
  rewrite E in E'. injection E' as E'.
  eapply records_unique; eassumption.
Qed.

(** The generator has a result on every valid buffer. *)
Lemma CreateMalformedIPTCProfile_total (Data : list byte) (Size : Z) :
  valid_buffer Data Size ->
  exists out, CreateMalformedIPTCProfile Data Size = Some out.
Proof.
  intros Hvalid. eexists. now apply CreateMalformedIPTCProfile_layout.
Qed.

(** ** Lengths *)

Section Lengths.

Variable Data : list byte.
Variable Size : Z.
Hypothesis Hvalid : valid_buffer Data Size.

Lemma length_br_bytes r :
  length (br_bytes r) = (5 + length (br_real r ++ br_pad r))%nat.
Proof. reflexivity. Qed.

Lemma length_record_at i o :
  0 <= o < Size ->
  Z.of_nat (length (br_bytes (record_at Data Size i o))) <= 3 + 2 + 65535.
Proof.
  intros Ho. rewrite length_br_bytes, Nat2Z.inj_add.
  destruct (record_at_payload Data Size Hvalid i o Ho) as (_ & _ & _ & ->).
  pose proof (br_length_range Data Size i o). lia.
Qed.

Lemma length_concat_le (b : Z) (ls : list (list Z)) :
  Forall (fun l => Z.of_nat (length l) <= b) ls ->
  Z.of_nat (length (concat ls)) <= Z.of_nat (length ls) * b.
Proof.
  induction 1 as [|l ls Hl _ IH]; [reflexivity|].
  cbn [concat length]. rewrite length_app. lia.
Qed.

Lemma records_from_end todo i : records_from Data Size todo i Size = [].
Proof.
  destruct todo; cbn [records_from]; [reflexivity|].
  destruct (Z.ltb_spec Size Size); [lia | reflexivity].
Qed.

(** Only a last record is padded, so the records are hardly longer than the
    input they consume. *)
Lemma length_records_from_input todo : forall i o,
  0 <= o <= Size ->
  let recs := records_from Data Size todo i o in
  Z.of_nat (length (concat (map br_bytes recs))) <=
    (cursor_after o recs - o) + 4 * Z.of_nat todo + 65535.
Proof.
  induction todo as [|n IH]; intros i o Ho; cbn [records_from]; cbv zeta.
  - cbn. lia.
  - destruct (Z.ltb_spec o Size) as [L | G]; [|cbn; lia].
    set (r := record_at Data Size i o).
    pose proof (br_end_range Data Size Hvalid i o ltac:(lia)) as He. fold r in He.
    pose proof (br_payload_range Data Size i o ltac:(lia)) as Hp. fold r in Hp.
    pose proof (br_length_range Data Size i o) as Hl. fold r in Hl.
    destruct (record_at_payload Data Size Hvalid i o ltac:(lia))
      as (_ & Hn & _ & Hlen). fold r in Hn, Hlen.
    specialize (IH (i + 1) (br_end r) ltac:(lia)). cbv zeta in IH.
    cbn [map concat]. rewrite length_app, length_br_bytes.
    change (cursor_after o (r :: records_from Data Size n (i + 1) (br_end r)))
      with (cursor_after (br_end r) (records_from Data Size n (i + 1) (br_end r))).
    assert (Ee : br_end r = br_payload r + Z.of_nat (length (br_real r)))
      by reflexivity.
    destruct (Z.le_gt_cases (br_length r) (Size - br_payload r)) as [A | B].
    + rewrite Hn in Ee. lia.
    + assert (Es : br_end r = Size) by (rewrite Hn in Ee; lia).
      rewrite Es, records_from_end in *. cbn in *. lia.
Qed.

Lemma length_injected on fixed bound o :
  0 <= o <= Size ->
  Z.of_nat (length (injected Data on fixed bound o)) <=
    Z.of_nat (length fixed) + (cursor_injected Size on bound o - o) /\
  (length (injected Data on fixed bound o) <= length fixed + bound)%nat.
Proof.
  intros Ho. unfold injected, cursor_injected. destruct on; [|cbn; lia].
  rewrite length_app, (length_slice Data Size Hvalid) by lia. lia.
Qed.

End Lengths.

Lemma length_injected_le Data on fixed bound o :
  (length (injected Data on fixed bound o) <= length fixed + bound)%nat.
Proof.
  unfold injected, slice. destruct on; [|cbn; lia].
  rewrite length_app, length_map, length_firstn. lia.
Qed.

Section TailLength.

Variable Data : list byte.
Variable Size : Z.
Hypothesis Hvalid : valid_buffer Data Size.

(** The injections add at most 66 bytes, and at most 16 bytes more than the
    input they consume. *)
Lemma length_tail o :
  let tail := early_injected Data Size o ++
              flood_injected Data Size (early_cursor Data Size o) in
  Z.of_nat (length tail) <= 11 + 25 + 15 + 15 /\
  (0 <= o <= Size -> Z.of_nat (length tail) <= 16 + (Size - o)).
Proof.
  cbv zeta. unfold early_injected, flood_injected, early_cursor. cbv zeta.
  set (o1 := cursor_injected Size (gate Data Size 4 0) 10 o).
  set (o2 := cursor_injected Size (gate Data Size 5 1) 20 o1).
  set (o3 := cursor_injected Size (gate Data Size 6 2) 10 o2).
  rewrite !length_app. split.
  - pose proof (length_injected_le Data (gate Data Size 4 0) [IPTC_SENTINEL] 10 o).
    pose proof (length_injected_le Data (gate Data Size 5 1)
                  [IPTC_SENTINEL; 2; 5; 3; 232] 20 o1).
    pose proof (length_injected_le Data (gate Data Size 6 2)
                  [IPTC_SENTINEL; 2; 5; 0; 0] 10 o2).
    pose proof (length_injected_le Data (gate Data Size 7 3)
                  (repeat IPTC_SENTINEL 5) 10 o3).
    cbn [length repeat] in *. lia.
  - intros Ho.
    pose proof (cursor_injected_range Size (gate Data Size 4 0) 10 o Ho) as R1.
    fold o1 in R1.
    pose proof (cursor_injected_range Size (gate Data Size 5 1) 20 o1 ltac:(lia)) as R2.
    fold o2 in R2.
    pose proof (cursor_injected_range Size (gate Data Size 6 2) 10 o2 ltac:(lia)) as R3.
    fold o3 in R3.
    pose proof (cursor_injected_range Size (gate Data Size 7 3) 10 o3 ltac:(lia)) as R4.
    destruct (length_injected Data Size Hvalid (gate Data Size 4 0)
                [IPTC_SENTINEL] 10 o ltac:(lia)) as [L1 _]. fold o1 in L1.
    destruct (length_injected Data Size Hvalid (gate Data Size 5 1)
                [IPTC_SENTINEL; 2; 5; 3; 232] 20 o1 ltac:(lia)) as [L2 _].
    fold o2 in L2.
    destruct (length_injected Data Size Hvalid (gate Data Size 6 2)
                [IPTC_SENTINEL; 2; 5; 0; 0] 10 o2 ltac:(lia)) as [L3 _].
    fold o3 in L3.
    destruct (length_injected Data Size Hvalid (gate Data Size 7 3)
                (repeat IPTC_SENTINEL 5) 10 o3 ltac:(lia)) as [L4 _].
    cbn [length repeat] in *. lia.
Qed.

End TailLength.

(** ** The harness monad *)

Lemma defined_hret {A} (a : A) : defined (hret a).
Proof. intros h. discriminate. Qed.

Lemma defined_call lib c : defined (call lib c).
Proof. intros h. unfold call. cbn. destruct (lib h c); discriminate. Qed.

Lemma defined_hbind {A B} (m : H A) (f : A -> H B) :
  defined m -> (forall a, defined (f a)) -> defined (hbind m f).
Proof.
  intros Hm Hf h. unfold hbind. specialize (Hm h).
  destruct (m h) as [[a | e |] h']; cbn in *;
    [apply Hf | discriminate | congruence].
Qed.

Lemma defined_try_catch (body : H unit) : defined body -> defined (try_catch body).
Proof.
  intros Hb h. unfold try_catch. specialize (Hb h).
  destruct (body h) as [[[] | e |] h']; cbn in *; (discriminate || congruence).
Qed.

Lemma defined_generated out : defined (generated (Some out)).
Proof. intros h. discriminate. Qed.

Lemma try_catch_returns (body : H unit) h :
  defined body -> fst (try_catch body h) = Returns tt.
Proof.
  intros Hb. unfold try_catch. specialize (Hb h).
  destruct (body h) as [[[] | e |] h']; cbn in *; congruence.
Qed.

Lemma extends_hret {A} (a : A) : extends (hret a).
Proof. intros h. exists []. now rewrite app_nil_r. Qed.

Lemma extends_call lib c : extends (call lib c).
Proof. intros h. now exists [c]. Qed.

Lemma extends_generated v : extends (generated v).
Proof. intros h. exists []. unfold generated. destruct v; cbn; now rewrite app_nil_r. Qed.

Lemma extends_hbind {A B} (m : H A) (f : A -> H B) :
  extends m -> (forall a, extends (f a)) -> extends (hbind m f).
Proof.
  intros Hm Hf h. unfold hbind. destruct (Hm h) as [t Ht].
  destruct (m h) as [[a | e |] h']; cbn in *; subst h'; [|now exists t ..].
  destruct (Hf a (h ++ t)) as [t' Ht']. exists (t ++ t').
  now rewrite Ht', app_assoc.
Qed.

Lemma extends_try_catch (body : H unit) : extends body -> extends (try_catch body).
Proof.
  intros Hb h. unfold try_catch. destruct (Hb h) as [t Ht].
  destruct (body h) as [[[] | e |] h']; cbn in *; now exists t.
Qed.

Ltac harness_shape :=
  repeat first
    [ apply defined_hbind | apply defined_try_catch | apply defined_call
    | apply defined_hret | apply defined_generated
    | apply extends_hbind | apply extends_try_catch | apply extends_call
    | apply extends_hret | apply extends_generated
    | intro ].

(** A block that begins with a library call records it first. *)
Lemma first_call lib c (k : H unit) h :
  extends k ->
  exists t, snd (try_catch (call lib c >>> k) h) = h ++ c :: t.
Proof.
  intros Hk.
  assert (E : exists t, snd ((call lib c >>> k) h) = h ++ c :: t).
  { unfold hbind, call. destruct (lib h c); cbn; [now exists []|].
    destruct (Hk (h ++ [c])) as [t Ht]. exists t.
    now rewrite Ht, <- app_assoc. }
  destruct E as [t Ht]. exists t. unfold try_catch.
  destruct ((call lib c >>> k) h) as [[[] | e |] h']; cbn in *; assumption.
Qed.

Lemma snd_hbind_hret {A} (m : H unit) (a : A) h :
  snd ((m >>> hret a) h) = snd (m h).
Proof. unfold hbind, hret. now destruct (m h) as [[[] | e |] h']. Qed.

Lemma fst_hbind_hret {A} (m : H unit) (a : A) h :
  fst (m h) = Returns tt -> fst ((m >>> hret a) h) = Returns a.
Proof.
  unfold hbind, hret. destruct (m h) as [[[] | e |] h']; cbn; congruence.
Qed.

Lemma not_own_extension {A} (h t : list A) (c : A) : h ++ c :: t <> h.
Proof.
  intros E. apply (f_equal (@length A)) in E.
  rewrite length_app in E. cbn in E. lia.
Qed.

(** The size guard of both entry points. *)
Lemma size_guard Size :
  IsInvalidSize Size 8 || (Size >? 65536) = true <-> Size < 8 \/ 8192 < Size.
Proof.
  unfold IsInvalidSize. rewrite !Z.gtb_ltb.
  destruct (Z.ltb_spec Size 8); [cbn; split; [lia | reflexivity]|].
  destruct (Z.ltb_spec 8192 Size); [cbn; split; [lia | reflexivity]|].
  destruct (Z.ltb_spec 65536 Size); cbn; split; (lia || discriminate).
Qed.

(** ** Two inputs that differ in byte 7 only *)

Section Toggle.

Variables pre post : list byte.
Variables b b' : byte.
Variable Size : Z.
Hypothesis Hpre : length pre = 7%nat.
Hypothesis Hvalid : valid_buffer (pre ++ b :: post) Size.

Local Notation D := (pre ++ b :: post).
Local Notation D' := (pre ++ b' :: post).

Lemma toggled_valid : valid_buffer D' Size.
Proof.
  destruct Hvalid as [HS HM]. split; [|assumption].
  rewrite HS, !length_app. reflexivity.
Qed.

Lemma toggled_Size : 8 <= Size.
Proof.
  destruct Hvalid as [HS _]. rewrite HS, length_app. cbn [length]. lia.
Qed.

Lemma at_toggled k : k <> 7 -> at_ D k = at_ D' k.
Proof.
  intros Hk. unfold at_. f_equal.
  destruct (Nat.lt_ge_cases (Z.to_nat k) 7) as [L | G].
  - rewrite !app_nth1 by lia. reflexivity.
  - rewrite !app_nth2 by lia. rewrite Hpre.
    destruct (Z.to_nat k - 7)%nat as [|m] eqn:E; [lia | reflexivity].
Qed.

Lemma at_7 : at_ D 7 = byte_val b.
Proof.
  unfold at_. rewrite app_nth2 by (rewrite Hpre; cbn; lia).
  rewrite Hpre. reflexivity.
Qed.

Lemma slice_toggled p n : 8 <= p -> slice D p n = slice D' p n.
Proof.
  intros Hp. unfold slice. do 2 f_equal.
  rewrite !skipn_app, Hpre, !skipn_all2 by lia.
  destruct (Z.to_nat p - 7)%nat as [|m] eqn:E; [lia | reflexivity].
Qed.

Lemma derived_length_toggled q :
  q <> 7 -> q <> 6 ->
  derived_length D Size q = derived_length D' Size q.
Proof.
  intros H7 H6. unfold derived_length.
  now rewrite (at_toggled q), (at_toggled (q + 1)) by lia.
Qed.

Lemma declared_length_toggled i len :
  declared_length D Size i len = declared_length D' Size i len.
Proof. unfold declared_length. now rewrite (at_toggled 3) by lia. Qed.

Lemma record_at_toggled i o :
  8 <= o -> record_at D Size i o = record_at D' Size i o.
Proof.
  intros Ho. pose proof toggled_Size. unfold record_at. cbv zeta.
  rewrite (at_toggled o), (at_toggled (o + 1)) by lia.
  rewrite (derived_length_toggled (Z.min (o + 2) Size)) by lia.
  rewrite declared_length_toggled.
  rewrite (slice_toggled (Z.min (Z.min (o + 2) Size + 2) Size)) by lia.
  reflexivity.
Qed.

Lemma records_from_toggled todo : forall i o,
  8 <= o ->
  records_from D Size todo i o = records_from D' Size todo i o.
Proof.
  induction todo as [|n IH]; intros i o Ho; cbn [records_from]; [reflexivity|].
  destruct (Z.ltb_spec o Size) as [L | G]; [|reflexivity].
  rewrite <- record_at_toggled by assumption.
  pose proof (br_end_range D Size Hvalid i o ltac:(lia)).
  rewrite IH by lia. reflexivity.
Qed.

Lemma gate_toggled k residue :
  k <> 7 -> gate D Size k residue = gate D' Size k residue.
Proof. intros Hk. unfold gate. now rewrite (at_toggled k). Qed.

Lemma injected_toggled on fixed bound o :
  8 <= o -> injected D on fixed bound o = injected D' on fixed bound o.
Proof. intros Ho. unfold injected. now rewrite slice_toggled. Qed.

Lemma record_count_toggled : record_count D Size = record_count D' Size.
Proof. unfold record_count. now rewrite (at_toggled 0) by lia. Qed.

(** The first record of either input: its length field is at least 768, so
    its payload takes in [Data[5 .. 7]] at the least. *)
Lemma first_declared_length :
  768 <= declared_length D Size 0 (derived_length D Size 3).
Proof.
  pose proof toggled_Size. unfold declared_length, derived_length.
  change (3 + 1) with 4. cbn [Z.eqb andb].
  destruct (Z.ltb_spec 4 Size); [|lia].
  pose proof (at_range D 3). pose proof (at_range D 4).
  pose proof (Z.mod_pos_bound (at_ D 3) 4 ltac:(lia)).
  pose proof (Z.div_mod (at_ D 3) 4 ltac:(lia)).
  destruct (Z.eqb_spec (at_ D 3 mod 4) 0); [lia|].
  destruct (Z.eqb_spec (at_ D 3 mod 4) 1); [lia|].
  destruct (Z.eqb_spec (at_ D 3 mod 4) 2); [lia|].
  assert (3 <= at_ D 3) by lia. lia.
Qed.

End Toggle.

Section FirstRecord.

Variables pre post : list byte.
Variable b : byte.
Variable Size : Z.
Hypothesis Hpre : length pre = 7%nat.
Hypothesis Hvalid : valid_buffer (pre ++ b :: post) Size.

Local Notation D := (pre ++ b :: post).

(** The first record of an input of at least eight bytes, with [Data[7]]
    as the third byte of its payload. *)
Lemma first_record_bytes :
  let len := declared_length D Size 0 (derived_length D Size 3) in
  let n := Nat.min (Z.to_nat len) (Z.to_nat (Size - 5)) in
  let r := record_at D Size 0 1 in
  (3 <= n)%nat /\
  br_end r = 5 + Z.of_nat n /\
  br_bytes r =
    [IPTC_SENTINEL; at_ D 1; at_ D 2; len / 256; len mod 256;
     at_ D 5; at_ D 6] ++
    byte_val b :: (slice D 8 (n - 3) ++ pattern (Z.to_nat len - n) (Z.of_nat n)).
Proof.
  pose proof (toggled_Size pre post b Size Hpre Hvalid) as H8.
  pose proof (first_declared_length pre post b Size Hpre Hvalid) as Hlen.
  intros len n r. fold len in Hlen.
  assert (Hn : (3 <= n)%nat) by (subst n; lia).
  assert (Eq : Z.min (1 + 2) Size = 3) by lia.
  assert (Ep : Z.min (3 + 2) Size = 5) by lia.
  assert (Er : r = {| br_cursor := 1;
                      br_dataset := at_ D 1;
                      br_record := at_ D 2;
                      br_length := len;
                      br_payload := 5;
                      br_real := slice D 5 n;
                      br_pad := pattern (Z.to_nat len - n) (Z.of_nat n) |}).
  { subst r. unfold record_at. cbv zeta. rewrite Eq, Ep. fold len. fold n.
    change (1 + 1) with 2. destruct (Z.ltb_spec 2 Size); [reflexivity | lia]. }
  assert (Es : slice D 5 n =
               at_ D 5 :: at_ D 6 :: byte_val b :: slice D 8 (n - 3)).
  { destruct n as [|[|[|m]]]; try lia.
    rewrite (slice_cons D Size Hvalid 5) by lia. change (5 + 1) with 6.
    rewrite (slice_cons D Size Hvalid 6) by lia. change (6 + 1) with 7.
    rewrite (slice_cons D Size Hvalid 7) by lia. change (7 + 1) with 8.
    rewrite (at_7 pre post b Hpre).
    now replace (S (S (S m)) - 3)%nat with m by lia. }
  split; [exact Hn|]. split.
  - rewrite Er. unfold br_end. cbn [br_payload br_real].
    rewrite (length_slice D Size Hvalid) by lia. lia.
  - rewrite Er. unfold br_bytes. cbn [br_dataset br_record br_length br_real br_pad].
    rewrite Es. reflexivity.
Qed.

End FirstRecord.

Section ToggleWhole.

Variables pre post : list byte.
Variables b b' : byte.
Variable Size : Z.
Hypothesis Hpre : length pre = 7%nat.
Hypothesis Hvalid : valid_buffer (pre ++ b :: post) Size.

Local Notation D := (pre ++ b :: post).
Local Notation D' := (pre ++ b' :: post).

(** Everything the generator writes for [D] and [D'], side by side. *)
Lemma toggle_layout :
  exists head tail early o,
    length head = 7%nat /\ 8 <= o /\
    main_loop_output D Size = Some (head ++ byte_val b :: tail) /\
    main_loop_output D' Size = Some (head ++ byte_val b' :: tail) /\
    CreateMalformedIPTCProfile D Size =
      Some ((head ++ byte_val b :: tail) ++ early ++
            injected D ((8 <? Size) && (byte_val b mod 4 =? 3))
              (repeat IPTC_SENTINEL 5) 10 o) /\
    CreateMalformedIPTCProfile D' Size =
      Some ((head ++ byte_val b' :: tail) ++ early ++
            injected D ((8 <? Size) && (byte_val b' mod 4 =? 3))
              (repeat IPTC_SENTINEL 5) 10 o).
Proof.
  pose proof (toggled_valid pre post b b' Size Hvalid) as Hvalid'.
  pose proof (toggled_Size pre post b Size Hpre Hvalid) as H8.
  destruct (first_record_bytes pre post b Size Hpre Hvalid) as (Hn & He & Hb).
  destruct (first_record_bytes pre post b' Size Hpre Hvalid') as (_ & He' & Hb').
  cbv zeta in *.
  (* what the two first records share *)
  rewrite <- (derived_length_toggled pre post b b' Size Hpre 3) in He', Hb' by lia.
  rewrite <- (declared_length_toggled pre post b b' Size Hpre) in He', Hb'.
  rewrite <- !(at_toggled pre post b b' Hpre) in Hb' by lia.
  rewrite <- (slice_toggled pre post b b' Hpre) in Hb' by lia.
  set (len := declared_length D Size 0 (derived_length D Size 3)) in *.
  set (n := Nat.min (Z.to_nat len) (Z.to_nat (Size - 5))) in *.
  set (head := [IPTC_SENTINEL; at_ D 1; at_ D 2; len / 256; len mod 256;
                at_ D 5; at_ D 6]) in *.
  set (t0 := slice D 8 (n - 3) ++ pattern (Z.to_nat len - n) (Z.of_nat n)) in *.
  (* the records after the first *)
  pose proof (record_count_range D Size) as Hc.
  pose proof (record_count_toggled pre post b b' Size Hpre) as Ec.
  destruct (Z.to_nat (record_count D Size)) as [|todo] eqn:Et; [lia|].
  assert (Er : base_records_of D Size =
               record_at D Size 0 1 ::
               records_from D Size todo 1 (5 + Z.of_nat n)).
  { unfold base_records_of. rewrite Et. cbn [records_from].
    destruct (Z.ltb_spec 1 Size); [|lia]. now rewrite He. }
  assert (Er' : base_records_of D' Size =
                record_at D' Size 0 1 ::
                records_from D Size todo 1 (5 + Z.of_nat n)).
  { unfold base_records_of. rewrite <- Ec, Et. cbn [records_from].
    destruct (Z.ltb_spec 1 Size); [|lia]. rewrite He'.
    now rewrite (records_from_toggled pre post b b' Size Hpre Hvalid) by lia. }
  set (rest := records_from D Size todo 1 (5 + Z.of_nat n)) in *.
  set (o := cursor_after (5 + Z.of_nat n) rest).
  assert (Ho : 5 + Z.of_nat n <= o <= Size).
  { apply (cursor_after_range D Size Hvalid). lia. }
  exists head, (t0 ++ concat (map br_bytes rest)),
    (early_injected D Size o), (early_cursor D Size o).
  pose proof (early_cursor_range D Size o ltac:(lia)) as Hec.
  split; [reflexivity|]. split; [lia|].
  assert (Ecur : cursor_after 1 (base_records_of D Size) = o).
  { rewrite Er. cbn [cursor_after fold_left]. now rewrite He. }
  assert (Ecur' : cursor_after 1 (base_records_of D' Size) = o).
  { rewrite Er'. cbn [cursor_after fold_left]. now rewrite He'. }
  assert (Em : concat (map br_bytes (base_records_of D Size))
               = head ++ byte_val b :: t0 ++ concat (map br_bytes rest)).
  { rewrite Er. cbn [map concat]. rewrite Hb, <- app_assoc. reflexivity. }
  assert (Em' : concat (map br_bytes (base_records_of D' Size))
                = head ++ byte_val b' :: t0 ++ concat (map br_bytes rest)).
  { rewrite Er'. cbn [map concat]. rewrite Hb', <- app_assoc. reflexivity. }
  assert (Eearly : early_injected D' Size o = early_injected D Size o
                   /\ early_cursor D' Size o = early_cursor D Size o).
  { unfold early_injected, early_cursor. cbv zeta.
    rewrite <- !(gate_toggled pre post b b' Size Hpre) by lia.
    set (o1 := cursor_injected Size (gate D Size 4 0) 10 o).
    set (o2 := cursor_injected Size (gate D Size 5 1) 20 o1).
    pose proof (cursor_injected_range Size (gate D Size 4 0) 10 o ltac:(lia)).
    pose proof (cursor_injected_range Size (gate D Size 5 1) 20 o1 ltac:(lia)).
    rewrite <- !(injected_toggled pre post b b' Hpre) by (fold o1 o2; lia).
    split; reflexivity. }
  destruct Eearly as [Ei Ee].
  assert (Eg : gate D Size 7 3 = (8 <? Size) && (byte_val b mod 4 =? 3)).
  { unfold gate. now rewrite (at_7 pre post b Hpre). }
  assert (Eg' : gate D' Size 7 3 = (8 <? Size) && (byte_val b' mod 4 =? 3)).
  { unfold gate. now rewrite (at_7 pre post b' Hpre). }
  split; [|split; [|split]].
  - now rewrite (main_loop_output_layout D Size Hvalid), Em.
  - now rewrite (main_loop_output_layout D' Size Hvalid'), Em'.
  - rewrite (CreateMalformedIPTCProfile_layout D Size Hvalid). cbv zeta.
    rewrite Ecur, Em. unfold flood_injected. now rewrite Eg.
  - rewrite (CreateMalformedIPTCProfile_layout D' Size Hvalid'). cbv zeta.
    rewrite Ecur', Em', Ei, Ee. unfold flood_injected. rewrite Eg'.
    now rewrite <- (injected_toggled pre post b b' Hpre) by lia.
Qed.

End ToggleWhole.

(** ** The generator on concrete inputs *)

Example profile_of_two_bytes :
  CreateMalformedIPTCProfile [x00; x07] 2 = Some [0x1c; 7; 5; 0; 0].
Proof. reflexivity. Qed.

Example profile_of_three_bytes :
  CreateMalformedIPTCProfile [x00; x01; x02] 3 = Some [0x1c; 1; 2; 0; 0].
Proof. reflexivity. Qed.

(** One length byte, no payload byte left: five bytes of pattern. *)
Example profile_of_four_bytes :
  CreateMalformedIPTCProfile [x00; x01; x02; x05] 4 =
    Some [0x1c; 1; 2; 0; 5; 65; 66; 67; 68; 69].
Proof. reflexivity. Qed.

(** One record with a payload of 768 input bytes, then all four injections,
    each with input bytes left to copy. *)
Example profile_with_all_injections :
  CreateMalformedIPTCProfile
    ([x00; x01; x02; x03; x00; x41; x42; x43] ++ repeat x41 765 ++
     repeat x61 10 ++ repeat x62 20 ++ repeat x63 10 ++ repeat x64 10 ++
     [x65]) 824
  = Some ([0x1c; 1; 2; 3; 0; 65; 66; 67] ++ repeat 65 765 ++
          [0x1c] ++ repeat 97 10 ++
          [0x1c; 2; 5; 3; 232] ++ repeat 98 20 ++
          [0x1c; 2; 5; 0; 0] ++ repeat 99 10 ++
          repeat 0x1c 5 ++ repeat 100 10).
Proof. vm_compute. reflexivity. Qed.

(** Two records: the second one is short of input and padded from payload
    index 2 on. *)
Example profile_of_two_records :
  main_loop_output
    ([x01; x01; x02; x03; x00] ++ repeat x41 768 ++
     [x09; x08; x00; x04; x2a; x2b]) 779
  = Some (([0x1c; 1; 2; 3; 0] ++ repeat 65 768) ++
          [0x1c; 9; 8; 0; 4; 42; 43; 67; 68]).
Proof. vm_compute. reflexivity. Qed.

(** ** The entry points on concrete inputs and libraries *)

(** A library whose TIFF encoder fails: the rest of the round trip is
    skipped, the property queries still run, and 0 is returned. *)
Example basic_harness_when_write_throws :
  IptcProfileFuzzer.LLVMFuzzerTestOneInput
    (fun _ c => match c with
                | WriteBlob _ _ => Some (MagickError "no encode delegate")
                | _ => None
                end)
    [x1c; x02; x05; x00; x03; x61; x62; x63] 8 []
  = (Returns 0,
     [NewImage 10 10 "white";
      NewBlob [28; 2; 5; 0; 3; 97; 98; 99];
      SetProfile "image" "iptc" [28; 2; 5; 0; 3; 97; 98; 99];
      NewEmptyBlob; WriteBlob "image" "TIFF";
      Attribute "image" "IPTC:*"; FileName "image"; Format "image";
      ImageSize "image"]).
Proof. reflexivity. Qed.

(** A library that cannot even construct the image: nothing else is
    called. *)
Example advanced_harness_when_image_throws :
  IptcProfileAdvancedFuzzer.LLVMFuzzerTestOneInput
    (fun _ _ => Some (MagickError "memory allocation failed"))
    [x00; x02; x05; x03; x00; x61; x62; x63] 8 []
  = (Returns 0, [NewImage 10 10 "white"]).
Proof. reflexivity. Qed.

(** A library that never throws: the advanced harness goes through all four
    tests with the generated profile. *)
Example advanced_harness_when_nothing_throws :
  let profile :=
    [28; 2; 5; 3; 0; 97; 98; 99; 100] ++ pattern 764 4 ++
    [28] ++ [28; 2; 5; 3; 232] ++ [28; 2; 5; 0; 0] ++ repeat 28 5 in
  let input := [0; 2; 5; 3; 0; 97; 98; 99; 100] in
  IptcProfileAdvancedFuzzer.LLVMFuzzerTestOneInput (fun _ _ => None)
    [x00; x02; x05; x03; x00; x61; x62; x63; x64] 9 []
  = (Returns 0,
     [NewImage 10 10 "white";
      NewBlob profile;
      SetProfile "image" "iptc" profile;
      NewEmptyBlob; WriteBlob "image" "TIFF"; NewEmptyImage;
      ReadBlob "newImage"; GetProfile "newImage" "iptc";
      Identify "image";
      CopyImage "image"; Resize "clonedImage" 20 20;
      GetProfile "clonedImage" "iptc";
      NewBlob input; SetProfile "image" "exif" input; NewEmptyBlob;
      SetProfile "image" "iptc" []; SetProfile "image" "iptc" profile]).
Proof. vm_compute. reflexivity. Qed.

(** Seven bytes are below the window: no call at all. *)
Example harness_below_window :
  IptcProfileFuzzer.LLVMFuzzerTestOneInput (fun _ _ => None)
    [x00; x01; x02; x03; x04; x05; x06] 7 [] = (Returns 0, []) /\
  IptcProfileAdvancedFuzzer.LLVMFuzzerTestOneInput (fun _ _ => None)
    [x00; x01; x02; x03; x04; x05; x06] 7 [] = (Returns 0, []).
Proof. split; reflexivity. Qed.

(** * The claims *)

(** C1.  On every input buffer, the empty one included, the generator
    performs no read outside [Data[0 .. Size-1]].  In this embedding a read
    [Data[i]] fails exactly when [i] is not inside the buffer, no step
    recovers from a failed read ([bind_None]), and the generator never
    fails. *)
Theorem CreateMalformedIPTCProfile_reads_in_bounds (Data : list byte) (Size : Z) :
  valid_buffer Data Size ->
  (forall i o, index Data i o = None <-> ~ (0 <= i <= Size - 1)) /\
  exists out, CreateMalformedIPTCProfile Data Size = Some out.
Proof.
  intros Hvalid. split.
  - intros i o. rewrite index_None_iff. destruct Hvalid as [-> _]. lia.
  - destruct (Z.le_gt_cases Size 1) as [L | G].
    + exists []. now apply CreateMalformedIPTCProfile_short.
    + eexists. apply CreateMalformedIPTCProfile_spec; [assumption | lia].
Qed.

Lemma CreateMalformedIPTCProfile_reads_in_bounds_witness :
  (forall i o, index [] i o = None <-> ~ (0 <= i <= 0 - 1)) /\
  exists out, CreateMalformedIPTCProfile [] 0 = Some out.
Proof.
  apply (CreateMalformedIPTCProfile_reads_in_bounds [] 0).
  split; [reflexivity | unfold SIZE_MAX; lia].
Defined.

(** C2.  On an input of more than four bytes the two length bytes of the
    first base record (output bytes 3 and 4, big-endian) are fixed by
    [Data[3] mod 4]: residue 0 gives 0xFFFF, residue 1 gives 0xFFF0, residue 2
    gives 0x7FFF, and residue 3 leaves the length read from the input after
    the record-type byte, here the two bytes [Data[3]] and [Data[4]]. *)
Theorem first_record_length_override (Data : list byte) (Size : Z) :
  valid_buffer Data Size ->
  4 < Size ->
  exists hi lo rest,
    CreateMalformedIPTCProfile Data Size =
      Some ([IPTC_SENTINEL; at_ Data 1; at_ Data 2; hi; lo] ++ rest) /\
    0 <= hi < 256 /\ 0 <= lo < 256 /\
    (at_ Data 3 mod 4 = 0 -> 256 * hi + lo = 0xFFFF) /\
    (at_ Data 3 mod 4 = 1 -> 256 * hi + lo = 0xFFF0) /\
    (at_ Data 3 mod 4 = 2 -> 256 * hi + lo = 0x7FFF) /\
    (at_ Data 3 mod 4 = 3 ->
       256 * hi + lo = derived_length Data Size 3 /\
       hi = at_ Data 3 /\ lo = at_ Data 4).
Proof.
  intros Hvalid H4.
  destruct (base_records_of_first Data Size ltac:(lia)) as [recs Efirst].
  pose proof (CreateMalformedIPTCProfile_spec Data Size Hvalid ltac:(lia)) as E.
  cbv zeta in E. rewrite Efirst in E. cbn [map concat] in E.
  set (r := record_at Data Size 0 1) in *.
  pose proof (br_length_range Data Size 0 1) as Hlen. fold r in Hlen.
  assert (Elen : br_length r = declared_length Data Size 0 (derived_length Data Size 3)).
  { subst r. cbn [record_at br_length]. now rewrite Z.min_l by lia. }
  assert (Erec : br_record r = at_ Data 2).
  { subst r. cbn [record_at br_record]. change (1 + 1) with 2.
    destruct (Z.ltb_spec 2 Size); [reflexivity | lia]. }
  exists (br_length r / 256), (br_length r mod 256). eexists.
  split.
  { rewrite E. unfold br_bytes. rewrite Erec. cbn [app].
    change (br_dataset r) with (at_ Data 1). rewrite <- !app_assoc. reflexivity. }
  pose proof (Z.div_mod (br_length r) 256 ltac:(lia)) as Edm.
  pose proof (Z.mod_pos_bound (br_length r) 256 ltac:(lia)) as Hlo.
  assert (Hhi : 0 <= br_length r / 256 < 256).
  { split; [apply Z.div_pos | apply Z.div_lt_upper_bound]; lia. }
  rewrite <- Edm. split; [exact Hhi|]. split; [exact Hlo|].
  unfold declared_length in Elen. cbn [Z.eqb andb] in Elen.
  destruct (Z.ltb_spec 4 Size) as [_ | ?]; [|lia].
  split; [|split; [|split]]; intros Hres; rewrite Hres in Elen;
    cbn [Z.eqb Pos.eqb] in Elen; try assumption.
  split; [|split].
  all: pose proof (at_range Data 3); pose proof (at_range Data 4).
  all: assert (Ed : derived_length Data Size 3 = 256 * at_ Data 3 + at_ Data 4)
    by (unfold derived_length; change (3 + 1) with 4;
        destruct (Z.ltb_spec 4 Size); [reflexivity | lia]).
  all: rewrite Elen, Ed.
  - reflexivity.
  - symmetry. apply (Z.div_unique_pos _ 256 _ (at_ Data 4)); lia.
  - symmetry. apply (Z.mod_unique_pos _ 256 (at_ Data 3)); lia.
Qed.

Lemma first_record_length_override_witness :
  exists hi lo rest,
    CreateMalformedIPTCProfile [x00; x01; x02; x07; x00] 5 =
      Some ([IPTC_SENTINEL; 1; 2; hi; lo] ++ rest) /\
    0 <= hi < 256 /\ 0 <= lo < 256 /\
    (7 mod 4 = 0 -> 256 * hi + lo = 0xFFFF) /\
    (7 mod 4 = 1 -> 256 * hi + lo = 0xFFF0) /\
    (7 mod 4 = 2 -> 256 * hi + lo = 0x7FFF) /\
    (7 mod 4 = 3 ->
       256 * hi + lo = derived_length [x00; x01; x02; x07; x00] 5 3 /\
       hi = 7 /\ lo = 0).
Proof.
  apply (first_record_length_override [x00; x01; x02; x07; x00] 5).
  - split; [reflexivity | unfold SIZE_MAX; lia].
  - lia.
Defined.

(** C3 fails as stated: on the empty input the output is not the five bytes
    of one default record. *)
Lemma empty_input_gives_no_default_record :
  CreateMalformedIPTCProfile [] 0 <> Some [IPTC_SENTINEL; 2; 5; 0; 0].
Proof. vm_compute. discriminate. Qed.

(** C3, amended.  For [Size = 0] one base record is asked for
    ([numRecords = 1]), but the loop guard [dataOffset < Size] fails at once
    with the cursor at 1, and no injection gate passes: the output is
    empty. *)
Theorem empty_input_gives_empty_profile (Data : list byte) :
  numRecords Data 0 0 = Some (1, 0, []) /\
  main_loop_output Data 0 = Some [] /\
  CreateMalformedIPTCProfile Data 0 = Some [].
Proof. repeat split. Qed.

(** C4.  The main loop emits at most 10 base records, each of at most
    [3 + 2 + 65535] bytes, and the four injections add at most
    [11 + 25 + 15 + 15] bytes; so the output never exceeds
    [10 * (3 + 2 + 65535)] plus those bytes.  It is also at most the input
    size plus a constant, because only a last record can be padded. *)
Theorem output_length_bounded (Data : list byte) (Size : Z) :
  valid_buffer Data Size ->
  exists recs tail,
    base_records_layout Data Size recs /\
    CreateMalformedIPTCProfile Data Size =
      Some (concat (map br_bytes recs) ++ tail) /\
    (length recs <= 10)%nat /\
    Forall (fun r => Z.of_nat (length (br_bytes r)) <= 3 + 2 + 65535) recs /\
    Z.of_nat (length tail) <= 11 + 25 + 15 + 15 /\
    Z.of_nat (length (concat (map br_bytes recs) ++ tail)) <=
      10 * (3 + 2 + 65535) + (11 + 25 + 15 + 15) /\
    Z.of_nat (length (concat (map br_bytes recs) ++ tail)) <= Size + 65590.
Proof.
  intros Hvalid.
  set (recs := base_records_of Data Size).
  set (o := cursor_after 1 recs).
  exists recs,
    (early_injected Data Size o ++
     flood_injected Data Size (early_cursor Data Size o)).
  destruct (length_tail Data Size Hvalid o) as [Ht Ht'].
  pose proof (length_base_records_of Data Size) as Hn. fold recs in Hn.
  assert (Hr : Forall (fun r => Z.of_nat (length (br_bytes r)) <= 3 + 2 + 65535) recs).
  { apply base_records_of_Forall; [assumption|].
    intros i q Hq. now apply length_record_at. }
  assert (Hc : Z.of_nat (length (concat (map br_bytes recs)))
               <= Z.of_nat (length recs) * (3 + 2 + 65535)).
  { rewrite <- (length_map br_bytes recs). apply length_concat_le.
    apply Forall_map. exact Hr. }
  split; [now apply base_records_of_layout|].
  split; [now apply CreateMalformedIPTCProfile_layout|].
  split; [exact Hn|]. split; [exact Hr|]. split; [exact Ht|].
  rewrite length_app, Nat2Z.inj_add. split; [nia|].
  destruct (Z.le_gt_cases Size 1) as [L | G].
  - pose proof (Size_nonneg Data Size Hvalid).
    assert (E : recs = []) by now apply base_records_of_short.
    assert (Ho : o = 1) by (subst o; now rewrite E).
    revert Ht. unfold early_injected, flood_injected.
    rewrite !(gate_short Data Size) by lia. rewrite E. cbn. lia.
  - pose proof (length_records_from_input Data Size Hvalid
                  (Z.to_nat (record_count Data Size)) 0 1 ltac:(lia)) as Hm.
    cbv zeta in Hm. fold (base_records_of Data Size) in Hm. fold recs o in Hm.
    pose proof (record_count_range Data Size).
    assert (Ho : 1 <= o <= Size)
      by (apply (cursor_after_range Data Size Hvalid); lia).
    specialize (Ht' ltac:(lia)). lia.
Qed.

Lemma output_length_bounded_witness :
  exists recs tail,
    base_records_layout [x09; x01; x02; x03; x00; x00; x02; x07; x01] 9 recs /\
    CreateMalformedIPTCProfile [x09; x01; x02; x03; x00; x00; x02; x07; x01] 9 =
      Some (concat (map br_bytes recs) ++ tail) /\
    (length recs <= 10)%nat /\
    Forall (fun r => Z.of_nat (length (br_bytes r)) <= 3 + 2 + 65535) recs /\
    Z.of_nat (length tail) <= 11 + 25 + 15 + 15 /\
    Z.of_nat (length (concat (map br_bytes recs) ++ tail)) <=
      10 * (3 + 2 + 65535) + (11 + 25 + 15 + 15) /\
    Z.of_nat (length (concat (map br_bytes recs) ++ tail)) <= 9 + 65590.
Proof.
  apply (output_length_bounded [x09; x01; x02; x03; x00; x00; x02; x07; x01] 9).
  split; [reflexivity | unfold SIZE_MAX; lia].
Defined.

(** C5.  The vector after the main loop is a sequence of base records, each
    made of the sentinel, the dataset and record bytes, the two big-endian
    bytes of its length field, and a payload (input bytes, then padding) of
    exactly as many bytes as the length field declares. *)
Theorem declared_length_fully_backed (Data : list byte) (Size : Z) :
  valid_buffer Data Size ->
  exists recs,
    base_records_layout Data Size recs /\
    Forall (fun r =>
              0 <= br_length r < 65536 /\
              Z.of_nat (length (br_real r ++ br_pad r)) = br_length r) recs.
Proof.
  intros Hvalid. exists (base_records_of Data Size).
  split; [now apply base_records_of_layout|].
  apply base_records_of_Forall; [assumption|]. intros i o Ho.
  split; [apply br_length_range | now apply record_at_payload].
Qed.

Lemma declared_length_fully_backed_witness :
  exists recs,
    base_records_layout
      [x01; x01; x02; x00; x02; x41; x42; x09; x08; x00; x05] 11 recs /\
    Forall (fun r =>
              0 <= br_length r < 65536 /\
              Z.of_nat (length (br_real r ++ br_pad r)) = br_length r) recs.
Proof.
  apply declared_length_fully_backed.
  split; [reflexivity | unfold SIZE_MAX; lia].
Defined.

(** C6 fails as stated: here the record declares 768 payload bytes with a
    single byte of input left, and its first padding byte is ['B']. *)
Lemma first_padding_byte_is_not_A :
  exists pad,
    main_loop_output [x00; x01; x02; x03; x00; x07] 6 =
      Some ([IPTC_SENTINEL; 1; 2; 3; 0] ++ [7] ++ pad) /\
    length pad = 767%nat /\
    nth 0 pad 0 <> 65 + 0 mod 26.
Proof.
  eexists. split; [vm_compute; reflexivity|].
  split; [reflexivity | vm_compute; discriminate].
Qed.

(** C6, amended.  Whenever a base record declares more payload than the [n]
    input bytes still unread, the record copies those [n] bytes and the
    padding byte at relative index [k] after them ([k = 0] for the first)
    equals ['A' + ((n + k) mod 26)]: the pattern is indexed by the byte's
    position in the payload. *)
Theorem padding_follows_payload_index (Data : list byte) (Size : Z) :
  valid_buffer Data Size ->
  exists recs,
    base_records_layout Data Size recs /\
    Forall (fun r =>
              let n := Size - br_payload r in
              n < br_length r ->
                br_real r = slice Data (br_payload r) (Z.to_nat n) /\
                Z.of_nat (length (br_real r)) = n /\
                Z.of_nat (length (br_pad r)) = br_length r - n /\
                forall k, (k < length (br_pad r))%nat ->
                  nth k (br_pad r) 0 = 65 + (n + Z.of_nat k) mod 26) recs.
Proof.
  intros Hvalid. exists (base_records_of Data Size).
  split; [now apply base_records_of_layout|].
  apply base_records_of_Forall; [assumption|]. intros i o Ho. cbv zeta.
  pose proof (br_payload_range Data Size i o Ho) as Hp.
  pose proof (br_length_range Data Size i o) as Hl.
  destruct (record_at_payload Data Size Hvalid i o Ho) as (Er & Ln & Ep & _).
  intros Hn.
  set (r := record_at Data Size i o) in *.
  replace (Z.min (br_length r) (Size - br_payload r))
    with (Size - br_payload r) in * by lia.
  repeat split.
  - exact Er.
  - lia.
  - rewrite Ep, length_pattern. lia.
  - intros k Hk. rewrite Ep in *. rewrite length_pattern in Hk.
    rewrite nth_pattern by assumption. do 2 f_equal. lia.
Qed.

Lemma padding_follows_payload_index_witness :
  exists recs,
    base_records_layout [x00; x01; x02; x03; x00; x07] 6 recs /\
    Forall (fun r =>
              let n := 6 - br_payload r in
              n < br_length r ->
                br_real r =
                  slice [x00; x01; x02; x03; x00; x07] (br_payload r) (Z.to_nat n) /\
                Z.of_nat (length (br_real r)) = n /\
                Z.of_nat (length (br_pad r)) = br_length r - n /\
                forall k, (k < length (br_pad r))%nat ->
                  nth k (br_pad r) 0 = 65 + (n + Z.of_nat k) mod 26) recs.
Proof.
  apply (padding_follows_payload_index [x00; x01; x02; x03; x00; x07] 6).
  split; [reflexivity | unfold SIZE_MAX; lia].
Defined.

(** C7 fails as stated: these two inputs of nine bytes differ in [Data[7]]
    only, neither passes the gate of the sentinel flood, and yet the bytes of
    the main loop differ, because [Data[7]] is copied into the payload of the
    first record. *)
Lemma main_loop_output_depends_on_byte_7 :
  let D := [x00; x00; x00; x03; x00; x00; x00; x00; x00] in
  let D' := [x00; x00; x00; x03; x00; x00; x00; x01; x00] in
  firstn 7 D = firstn 7 D' /\ skipn 8 D = skipn 8 D' /\
  gate D 9 7 3 = false /\ gate D' 9 7 3 = false /\
  main_loop_output D 9 <> main_loop_output D' 9 /\
  CreateMalformedIPTCProfile D 9 <> CreateMalformedIPTCProfile D' 9.
Proof.
  cbv zeta. repeat split; try reflexivity; vm_compute; discriminate.
Qed.

(** C7, amended.  For two inputs of equal size that differ in [Data[7]]
    only, the outputs differ only in the presence or absence of the
    sentinel-flooding suffix (five sentinels and at most 10 input bytes)
    and in the byte at index 7 of the main loop's output, which is a copy of
    [Data[7]] in the payload of the first record; every other byte of the
    main loop and of the three earlier injections is the same. *)
Theorem toggling_byte_7 (pre post : list byte) (b b' : byte) (Size : Z) :
  length pre = 7%nat ->
  valid_buffer (pre ++ b :: post) Size ->
  exists head tail early trailing,
    length head = 7%nat /\ (length trailing <= 10)%nat /\
    main_loop_output (pre ++ b :: post) Size
      = Some (head ++ byte_val b :: tail) /\
    main_loop_output (pre ++ b' :: post) Size
      = Some (head ++ byte_val b' :: tail) /\
    CreateMalformedIPTCProfile (pre ++ b :: post) Size =
      Some ((head ++ byte_val b :: tail) ++ early ++
            if (8 <? Size) && (byte_val b mod 4 =? 3)
            then repeat IPTC_SENTINEL 5 ++ trailing else []) /\
    CreateMalformedIPTCProfile (pre ++ b' :: post) Size =
      Some ((head ++ byte_val b' :: tail) ++ early ++
            if (8 <? Size) && (byte_val b' mod 4 =? 3)
            then repeat IPTC_SENTINEL 5 ++ trailing else []).
Proof.
  intros Hpre Hvalid.
  destruct (toggle_layout pre post b b' Size Hpre Hvalid)
    as (head & tail & early & o & Hh & Ho & Hm & Hm' & Hc & Hc').
  exists head, tail, early, (slice (pre ++ b :: post) o 10).
  split; [exact Hh|]. split.
  { unfold slice. rewrite length_map, length_firstn. lia. }
  split; [exact Hm|]. split; [exact Hm'|].
  split; [exact Hc | exact Hc'].
Qed.

Lemma toggling_byte_7_witness :
  exists head tail early trailing,
    length head = 7%nat /\ (length trailing <= 10)%nat /\
    main_loop_output ([x00; x00; x00; x03; x00; x00; x00] ++ x00 :: [x2a]) 9
      = Some (head ++ byte_val x00 :: tail) /\
    main_loop_output ([x00; x00; x00; x03; x00; x00; x00] ++ x03 :: [x2a]) 9
      = Some (head ++ byte_val x03 :: tail) /\
    CreateMalformedIPTCProfile
      ([x00; x00; x00; x03; x00; x00; x00] ++ x00 :: [x2a]) 9 =
      Some ((head ++ byte_val x00 :: tail) ++ early ++
            if (8 <? 9) && (byte_val x00 mod 4 =? 3)
            then repeat IPTC_SENTINEL 5 ++ trailing else []) /\
    CreateMalformedIPTCProfile
      ([x00; x00; x00; x03; x00; x00; x00] ++ x03 :: [x2a]) 9 =
      Some ((head ++ byte_val x03 :: tail) ++ early ++
            if (8 <? 9) && (byte_val x03 mod 4 =? 3)
            then repeat IPTC_SENTINEL 5 ++ trailing else []).
Proof.
  apply (toggling_byte_7 [x00; x00; x00; x03; x00; x00; x00] [x2a] x00 x03 9).
  - reflexivity.
  - split; [reflexivity | unfold SIZE_MAX; lia].
Defined.

(** C8.  Whatever the library does (any call may throw a
    [Magick::Exception], depending on everything called before), both entry
    points return 0 and no exception leaves them. *)
Theorem entry_points_return_zero (lib : Library) (Data : list byte) (Size : Z)
  (h : list Call) :
  valid_buffer Data Size ->
  fst (IptcProfileFuzzer.LLVMFuzzerTestOneInput lib Data Size h) = Returns 0 /\
  fst (IptcProfileAdvancedFuzzer.LLVMFuzzerTestOneInput lib Data Size h)
    = Returns 0.
Proof.
  intros Hvalid. split.
  - unfold IptcProfileFuzzer.LLVMFuzzerTestOneInput.
    destruct (_ || _); [reflexivity|].
    apply fst_hbind_hret, try_catch_returns. harness_shape.
  - unfold IptcProfileAdvancedFuzzer.LLVMFuzzerTestOneInput.
    destruct (_ || _); [reflexivity|].
    destruct (CreateMalformedIPTCProfile_total Data Size Hvalid)
      as [out ->].
    apply fst_hbind_hret, try_catch_returns. harness_shape.
Qed.

Lemma entry_points_return_zero_witness :
  let lib : Library := fun _ _ => Some (MagickError "corrupt image") in
  let Data := [x03; x1c; x02; x07; x00; x41; x42; x43; x44] in
  fst (IptcProfileFuzzer.LLVMFuzzerTestOneInput lib Data 9 []) = Returns 0 /\
  fst (IptcProfileAdvancedFuzzer.LLVMFuzzerTestOneInput lib Data 9 [])
    = Returns 0.
Proof.
  apply entry_points_return_zero.
  split; [reflexivity | unfold SIZE_MAX; lia].
Defined.

(** C9.  Both entry points return 0 at once, with no library call made,
    exactly when [Size < 8] or [Size > 8192]: the comparison with
    [MAX_IPTC_SIZE = 65536] never decides, since [IsInvalidSize] already
    rejects every size above 8192.  For [8 <= Size <= 8192] the first thing
    they do is construct the image. *)
Theorem size_window (lib : Library) (Data : list byte) (Size : Z)
  (h : list Call) :
  (IsInvalidSize Size IptcProfileFuzzer.MIN_IPTC_SIZE
     || (Size >? IptcProfileFuzzer.MAX_IPTC_SIZE)
   = IsInvalidSize Size IptcProfileFuzzer.MIN_IPTC_SIZE) /\
  (IsInvalidSize Size IptcProfileAdvancedFuzzer.MIN_IPTC_SIZE
     || (Size >? IptcProfileAdvancedFuzzer.MAX_IPTC_SIZE)
   = IsInvalidSize Size IptcProfileAdvancedFuzzer.MIN_IPTC_SIZE) /\
  (IptcProfileFuzzer.LLVMFuzzerTestOneInput lib Data Size h = (Returns 0, h)
   <-> Size < 8 \/ 8192 < Size) /\
  (IptcProfileAdvancedFuzzer.LLVMFuzzerTestOneInput lib Data Size h
     = (Returns 0, h)
   <-> Size < 8 \/ 8192 < Size) /\
  (8 <= Size <= 8192 ->
   (exists t, snd (IptcProfileFuzzer.LLVMFuzzerTestOneInput lib Data Size h)
              = h ++ NewImage 10 10 "white" :: t) /\
   (exists t, snd (IptcProfileAdvancedFuzzer.LLVMFuzzerTestOneInput lib Data Size h)
              = h ++ NewImage 10 10 "white" :: t)).
Proof.
  assert (G : IsInvalidSize Size 8 || (Size >? 65536) = IsInvalidSize Size 8).
  { unfold IsInvalidSize. rewrite !Z.gtb_ltb.
    destruct (Z.ltb_spec Size 8); [reflexivity|].
    destruct (Z.ltb_spec 8192 Size); [reflexivity|].
    destruct (Z.ltb_spec 65536 Size); [lia | reflexivity]. }
  assert (B : exists t,
            8 <= Size <= 8192 ->
            snd (IptcProfileFuzzer.LLVMFuzzerTestOneInput lib Data Size h)
            = h ++ NewImage 10 10 "white" :: t).
  { unfold IptcProfileFuzzer.LLVMFuzzerTestOneInput,
      IptcProfileFuzzer.MIN_IPTC_SIZE, IptcProfileFuzzer.MAX_IPTC_SIZE.
    destruct (_ || _) eqn:E.
    - exists []. intros Hw. apply (size_guard Size) in E. lia.
    - rewrite snd_hbind_hret.
      match goal with
      | |- exists t, _ -> snd (try_catch (call lib ?c >>> ?k) h) = _ =>
          destruct (first_call lib c k h) as [t Ht]
      end; [harness_shape|].
      exists t. intros _. exact Ht. }
  assert (A : exists t,
            8 <= Size <= 8192 ->
            snd (IptcProfileAdvancedFuzzer.LLVMFuzzerTestOneInput lib Data Size h)
            = h ++ NewImage 10 10 "white" :: t).
  { unfold IptcProfileAdvancedFuzzer.LLVMFuzzerTestOneInput,
      IptcProfileAdvancedFuzzer.MIN_IPTC_SIZE,
      IptcProfileAdvancedFuzzer.MAX_IPTC_SIZE.
    destruct (_ || _) eqn:E.
    - exists []. intros Hw. apply (size_guard Size) in E. lia.
    - rewrite snd_hbind_hret.
      match goal with
      | |- exists t, _ -> snd (try_catch (call lib ?c >>> ?k) h) = _ =>
          destruct (first_call lib c k h) as [t Ht]
      end; [harness_shape|].
      exists t. intros _. exact Ht. }
  destruct B as [tb B], A as [ta A].
  split; [exact G|]. split; [exact G|].
  split; [|split].
  - split.
    + intros E. destruct (Z.lt_ge_cases Size 8) as [|L]; [now left|].
      destruct (Z.lt_ge_cases 8192 Size) as [|U]; [now right|].
      exfalso. specialize (B ltac:(lia)). rewrite E in B. cbn in B.
      symmetry in B. now apply not_own_extension in B.
    + intros Hw. apply (size_guard Size) in Hw.
      unfold IptcProfileFuzzer.LLVMFuzzerTestOneInput,
        IptcProfileFuzzer.MIN_IPTC_SIZE, IptcProfileFuzzer.MAX_IPTC_SIZE.
      now rewrite Hw.
  - split.
    + intros E. destruct (Z.lt_ge_cases Size 8) as [|L]; [now left|].
      destruct (Z.lt_ge_cases 8192 Size) as [|U]; [now right|].
      exfalso. specialize (A ltac:(lia)). rewrite E in A. cbn in A.
      symmetry in A. now apply not_own_extension in A.
    + intros Hw. apply (size_guard Size) in Hw.
      unfold IptcProfileAdvancedFuzzer.LLVMFuzzerTestOneInput,
        IptcProfileAdvancedFuzzer.MIN_IPTC_SIZE,
        IptcProfileAdvancedFuzzer.MAX_IPTC_SIZE.
      now rewrite Hw.
  - intros Hw. split; eexists; [apply B | apply A]; exact Hw.
Qed.

(** C10.  Each base record begins while its cursor is inside the input, so
    its dataset byte is always the input byte under the cursor and never the
    constant 2.  The record-type byte is the next input byte, or the constant
    5 when the dataset byte was the last byte of the input (as happens on the
    input [00 07]). *)
Theorem dataset_byte_never_falls_back (Data : list byte) (Size : Z) :
  valid_buffer Data Size ->
  (exists recs,
     base_records_layout Data Size recs /\
     Forall (fun r =>
               0 <= br_cursor r < Size /\
               br_dataset r = at_ Data (br_cursor r) /\
               (br_cursor r + 1 < Size /\
                  br_record r = at_ Data (br_cursor r + 1) \/
                br_cursor r + 1 = Size /\ br_record r = 5)) recs) /\
  main_loop_output [x00; x07] 2 = Some [IPTC_SENTINEL; 7; 5; 0; 0].
Proof.
  intros Hvalid. split; [|reflexivity].
  exists (base_records_of Data Size).
  split; [now apply base_records_of_layout|].
  apply base_records_of_Forall; [assumption|]. intros i o Ho.
  cbn [record_at br_cursor br_dataset br_record].
  split; [assumption|]. split; [reflexivity|].
  destruct (Z.ltb_spec (o + 1) Size); [left | right]; split; (reflexivity || lia).
Qed.

Lemma dataset_byte_never_falls_back_witness :
  (exists recs,
     base_records_layout [x01; x09; x08; x00; x00; x06] 6 recs /\
     Forall (fun r =>
               0 <= br_cursor r < 6 /\
               br_dataset r = at_ [x01; x09; x08; x00; x00; x06] (br_cursor r) /\
               (br_cursor r + 1 < 6 /\
                  br_record r = at_ [x01; x09; x08; x00; x00; x06] (br_cursor r + 1) \/
                br_cursor r + 1 = 6 /\ br_record r = 5)) recs) /\
  main_loop_output [x00; x07] 2 = Some [IPTC_SENTINEL; 7; 5; 0; 0].
Proof.
  apply (dataset_byte_never_falls_back [x01; x09; x08; x00; x00; x06] 6).
  split; [reflexivity | unfold SIZE_MAX; lia].
Defined.

(** * Further properties of the generator *)

Section MoreRecordFacts.

Variable Data : list byte.
Variable Size : Z.
Hypothesis Hvalid : valid_buffer Data Size.



(** Every record consumes input, so there are no more records than input
    bytes after the first. *)
Lemma length_records_from_le_input todo : forall i o,
  0 <= o <= Size ->
  Z.of_nat (length (records_from Data Size todo i o)) <= Size - o.
Proof.
  induction todo as [|n IH]; intros i o Ho; cbn [records_from]; [cbn; lia|].
  destruct (Z.ltb_spec o Size) as [L | G]; [|cbn; lia].
  pose proof (br_end_range Data Size Hvalid i o ltac:(lia)) as He.
  specialize (IH (i + 1) (br_end (record_at Data Size i o)) ltac:(lia)).
  cbn [length]. lia.
Qed.

Lemma cursor_after_last o front r :
  cursor_after o (front ++ [r]) = br_end r.
Proof. unfold cursor_after. now rewrite fold_left_app. Qed.

(** A padded record has used up the input and is the last one. *)
Lemma records_from_padded_last todo : forall i o front r back,
  0 <= o <= Size ->
  records_from Data Size todo i o = front ++ r :: back ->
  br_pad r <> [] ->
  back = [] /\ br_end r = Size.
Proof.
  induction todo as [|n IH]; intros i o front r back Ho E Hpad;
    cbn [records_from] in E; [now destruct front|].
  destruct (Z.ltb_spec o Size) as [L | G]; [|now destruct front].
  pose proof (br_end_range Data Size Hvalid i o ltac:(lia)) as He.
  destruct front as [|a front]; cbn [app] in E; injection E as Ea E.
  - subst r.
    destruct (record_at_payload Data Size Hvalid i o ltac:(lia))
      as (_ & Ln & Ep & _).
    pose proof (br_payload_range Data Size i o ltac:(lia)) as Hp.
    pose proof (br_length_range Data Size i o) as Hl.
    set (r := record_at Data Size i o) in *.
    assert (Es : br_end r = Size).
    { unfold br_end. rewrite Ln.
      destruct (Z.le_gt_cases (br_length r) (Size - br_payload r)) as [A | B];
        [|lia].
      exfalso. apply Hpad. rewrite Ep.
      replace (Z.to_nat (br_length r)
               - Z.to_nat (Z.min (br_length r) (Size - br_payload r)))%nat
        with O by lia.
      reflexivity. }
    split; [|exact Es].
    rewrite Es, (records_from_end Data Size) in E. now symmetry.
  - subst a. eapply IH; [| exact E | exact Hpad]. lia.
Qed.

(** The first record of an input of more than four bytes declares at least
    768 payload bytes. *)
Lemma first_length_at_least_768 :
  4 < Size ->
  768 <= declared_length Data Size 0 (derived_length Data Size 3).
Proof.
  intros H4. unfold declared_length, derived_length.
  change (3 + 1) with 4. cbn [Z.eqb andb].
  destruct (Z.ltb_spec 4 Size); [|lia].
  pose proof (at_range Data 3). pose proof (at_range Data 4).
  pose proof (Z.mod_pos_bound (at_ Data 3) 4 ltac:(lia)).
  pose proof (Z.div_mod (at_ Data 3) 4 ltac:(lia)).
  destruct (Z.eqb_spec (at_ Data 3 mod 4) 0); [lia|].
  destruct (Z.eqb_spec (at_ Data 3 mod 4) 1); [lia|].
  destruct (Z.eqb_spec (at_ Data 3 mod 4) 2); [lia|].
  assert (3 <= at_ Data 3) by lia. lia.
Qed.

Lemma first_record_length :
  4 < Size ->
  br_length (record_at Data Size 0 1)
  = declared_length Data Size 0 (derived_length Data Size 3).
Proof. intros H4. cbn [record_at br_length]. now rewrite Z.min_l by lia. Qed.

Lemma record_count_value :
  record_count Data Size = at_ Data 0 mod 10 + 1.
Proof.
  unfold record_count. destruct (Z.ltb_spec 0 Size); [reflexivity|].
  destruct Hvalid as [HS _]. destruct Data; [reflexivity | cbn in HS; lia].
Qed.

Lemma length_profile_le_input :
  forall out, CreateMalformedIPTCProfile Data Size = Some out ->
  Z.of_nat (length out) <= Size + 65590.
Proof.
  intros out E.
  rewrite (CreateMalformedIPTCProfile_layout Data Size Hvalid) in E.
  cbv zeta in E. injection E as <-.
  set (recs := base_records_of Data Size).
  set (o := cursor_after 1 recs).
  destruct (length_tail Data Size Hvalid o) as [Ht Ht'].
  rewrite length_app, Nat2Z.inj_add.
  destruct (Z.le_gt_cases Size 1) as [L | G].
  - pose proof (Size_nonneg Data Size Hvalid).
    assert (E : recs = []) by now apply base_records_of_short.
    rewrite E. cbn [map concat length]. lia.
  - pose proof (length_records_from_input Data Size Hvalid
                  (Z.to_nat (record_count Data Size)) 0 1 ltac:(lia)) as Hm.
    cbv zeta in Hm. fold (base_records_of Data Size) in Hm. fold recs o in Hm.
    pose proof (record_count_range Data Size).
    assert (Ho : 1 <= o <= Size)
      by (apply (cursor_after_range Data Size Hvalid); lia).
    specialize (Ht' ltac:(lia)). lia.
Qed.

Lemma length_profile_ge_773 :
  4 < Size ->
  forall out, CreateMalformedIPTCProfile Data Size = Some out ->
  773 <= Z.of_nat (length out) /\ nth 0 out 0 = IPTC_SENTINEL.
Proof.
  intros H4 out E.
  rewrite (CreateMalformedIPTCProfile_layout Data Size Hvalid) in E.
  cbv zeta in E. injection E as <-.
  destruct (base_records_of_first Data Size ltac:(lia)) as [rest ->].
  cbn [map concat].
  pose proof (first_length_at_least_768 H4) as Hl.
  rewrite <- (first_record_length H4) in Hl.
  destruct (record_at_payload Data Size Hvalid 0 1 ltac:(lia))
    as (_ & _ & _ & El).
  split; [|reflexivity].
  rewrite !length_app, length_br_bytes, !Nat2Z.inj_add, El. lia.
Qed.

End MoreRecordFacts.

(** X1.  The generator returns the empty vector exactly for inputs of at
    most one byte; on every longer input the output begins with the sentinel
    and the input byte [Data[1]], followed by at least three more bytes. *)
Theorem profile_empty_iff_short (Data : list byte) (Size : Z) :
  valid_buffer Data Size ->
  (CreateMalformedIPTCProfile Data Size = Some [] <-> Size <= 1) /\
  (1 < Size ->
   exists rest,
     CreateMalformedIPTCProfile Data Size
       = Some (IPTC_SENTINEL :: at_ Data 1 :: rest) /\
     (3 <= length rest)%nat).
Proof.
  intros Hvalid.
  assert (L : 1 < Size ->
              exists rest,
                CreateMalformedIPTCProfile Data Size
                  = Some (IPTC_SENTINEL :: at_ Data 1 :: rest) /\
                (3 <= length rest)%nat).
  { intros H1.
    rewrite (CreateMalformedIPTCProfile_layout Data Size Hvalid). cbv zeta.
    destruct (base_records_of_first Data Size H1) as [rest ->].
    cbn [map concat]. unfold br_bytes at 1. cbn [app record_at br_dataset].
    eexists. split; [reflexivity|]. cbn [length]. lia. }
  split; [|exact L]. split.
  - intros E. destruct (Z.le_gt_cases Size 1) as [|G]; [assumption|].
    destruct (L ltac:(lia)) as (rest & E' & _). congruence.
  - now apply CreateMalformedIPTCProfile_short.
Qed.

Lemma profile_empty_iff_short_witness :
  (CreateMalformedIPTCProfile [x05; x09; x02] 3 = Some [] <-> 3 <= 1) /\
  (1 < 3 ->
   exists rest,
     CreateMalformedIPTCProfile [x05; x09; x02] 3
       = Some (IPTC_SENTINEL :: at_ [x05; x09; x02] 1 :: rest) /\
     (3 <= length rest)%nat).
Proof.
  apply (profile_empty_iff_short [x05; x09; x02] 3).
  split; [reflexivity | unfold SIZE_MAX; lia].
Defined.

(** X2.  The main loop reads the input strictly from left to right: every
    base record starts where the one before ended, consumes at least its
    dataset byte and never moves the cursor past the end of the input.  So
    there are at most [Size - 1] base records and at most
    [Data[0] mod 10 + 1] of them, and at least one when the input has two
    bytes or more. *)
Theorem main_loop_consumes_input (Data : list byte) (Size : Z) :
  valid_buffer Data Size ->
  exists recs,
    base_records_layout Data Size recs /\
    Forall (fun r => br_cursor r < br_payload r /\
                     br_payload r <= br_end r /\
                     br_end r <= Size) recs /\
    Z.of_nat (length recs) <= Z.max 0 (Size - 1) /\
    Z.of_nat (length recs) <= at_ Data 0 mod 10 + 1 /\
    (1 < Size -> recs <> []).
Proof.
  intros Hvalid. exists (base_records_of Data Size).
  split; [now apply base_records_of_layout|].
  split.
  { apply base_records_of_Forall; [assumption|]. intros i o Ho.
    pose proof (br_payload_range Data Size i o Ho).
    pose proof (br_end_range Data Size Hvalid i o Ho).
    cbv beta. change (br_cursor (record_at Data Size i o)) with o.
    unfold br_end in *. lia. }
  split.
  { destruct (Z.le_gt_cases Size 1) as [L | G].
    - rewrite (base_records_of_short Data Size) by assumption. cbn. lia.
    - pose proof (length_records_from_le_input Data Size Hvalid
                    (Z.to_nat (record_count Data Size)) 0 1 ltac:(lia)).
      unfold base_records_of. lia. }
  split.
  { rewrite <- (record_count_value Data Size Hvalid).
    pose proof (record_count_range Data Size).
    pose proof (length_records_from Data Size
                  (Z.to_nat (record_count Data Size)) 0 1).
    unfold base_records_of. lia. }
  intros H1. destruct (base_records_of_first Data Size H1) as [rest ->].
  discriminate.
Qed.

Lemma main_loop_consumes_input_witness :
  exists recs,
    base_records_layout [x02; x01; x02; x03; x00; x41] 6 recs /\
    Forall (fun r => br_cursor r < br_payload r /\
                     br_payload r <= br_end r /\
                     br_end r <= 6) recs /\
    Z.of_nat (length recs) <= Z.max 0 (6 - 1) /\
    Z.of_nat (length recs) <= at_ [x02; x01; x02; x03; x00; x41] 0 mod 10 + 1 /\
    (1 < 6 -> recs <> []).
Proof.
  apply (main_loop_consumes_input [x02; x01; x02; x03; x00; x41] 6).
  split; [reflexivity | unfold SIZE_MAX; lia].
Defined.

(** X3.  Only the last base record can be padded.  When a record is padded
    the input is used up, so no further record follows and every injection
    that fires adds its fixed bytes only, without any input byte. *)
Theorem padding_ends_the_input (Data : list byte) (Size : Z) :
  valid_buffer Data Size ->
  exists recs tail,
    base_records_layout Data Size recs /\
    CreateMalformedIPTCProfile Data Size
      = Some (concat (map br_bytes recs) ++ tail) /\
    forall front r back,
      recs = front ++ r :: back ->
      br_pad r <> [] ->
      back = [] /\ br_end r = Size /\
      tail =
        (if (5 <? Size) && (at_ Data 4 mod 4 =? 0)
         then [IPTC_SENTINEL] else []) ++
        (if (6 <? Size) && (at_ Data 5 mod 4 =? 1)
         then [IPTC_SENTINEL; 2; 5; 3; 232] else []) ++
        (if (7 <? Size) && (at_ Data 6 mod 4 =? 2)
         then [IPTC_SENTINEL; 2; 5; 0; 0] else []) ++
        (if (8 <? Size) && (at_ Data 7 mod 4 =? 3)
         then repeat IPTC_SENTINEL 5 else []).
Proof.
  intros Hvalid.
  set (recs := base_records_of Data Size).
  set (o := cursor_after 1 recs).
  exists recs,
    (early_injected Data Size o ++
     flood_injected Data Size (early_cursor Data Size o)).
  split; [now apply base_records_of_layout|].
  split.
  { rewrite (CreateMalformedIPTCProfile_layout Data Size Hvalid). reflexivity. }
  intros front r back E Hpad.
  assert (H1 : 1 < Size).
  { destruct (Z.le_gt_cases Size 1) as [L | G]; [|lia].
    subst recs. rewrite (base_records_of_short Data Size L) in E.
    now destruct front. }
  destruct (records_from_padded_last Data Size Hvalid _ 0 1 front r back
              ltac:(lia) E Hpad) as [-> Es].
  split; [reflexivity|]. split; [exact Es|].
  assert (Eo : o = Size).
  { subst o. rewrite E. now rewrite cursor_after_last. }
  rewrite Eo. unfold early_injected, flood_injected, early_cursor. cbv zeta.
  assert (Ec : forall on bound, cursor_injected Size on bound Size = Size).
  { intros on bound. unfold cursor_injected. destruct on; lia. }
  assert (Ei : forall on fixed bound,
             injected Data on fixed bound Size = if on then fixed else []).
  { intros on fixed bound. unfold injected, slice. destruct on; [|reflexivity].
    destruct Hvalid as [HS _].
    rewrite skipn_all2 by lia. rewrite firstn_nil. cbn [map].
    apply app_nil_r. }
  rewrite !Ec, !Ei. unfold gate. rewrite <- !app_assoc. reflexivity.
Qed.

Lemma padding_ends_the_input_witness :
  exists recs tail,
    base_records_layout [x00; x01; x02; x03; x00; x07] 6 recs /\
    CreateMalformedIPTCProfile [x00; x01; x02; x03; x00; x07] 6
      = Some (concat (map br_bytes recs) ++ tail) /\
    forall front r back,
      recs = front ++ r :: back ->
      br_pad r <> [] ->
      back = [] /\ br_end r = 6 /\
      tail =
        (if (5 <? 6) && (at_ [x00; x01; x02; x03; x00; x07] 4 mod 4 =? 0)
         then [IPTC_SENTINEL] else []) ++
        (if (6 <? 6) && (at_ [x00; x01; x02; x03; x00; x07] 5 mod 4 =? 1)
         then [IPTC_SENTINEL; 2; 5; 3; 232] else []) ++
        (if (7 <? 6) && (at_ [x00; x01; x02; x03; x00; x07] 6 mod 4 =? 2)
         then [IPTC_SENTINEL; 2; 5; 0; 0] else []) ++
        (if (8 <? 6) && (at_ [x00; x01; x02; x03; x00; x07] 7 mod 4 =? 3)
         then repeat IPTC_SENTINEL 5 else []).
Proof.
  apply (padding_ends_the_input [x00; x01; x02; x03; x00; x07] 6).
  split; [reflexivity | unfold SIZE_MAX; lia].
Defined.


(** X4.  On an input of 5 to 32772 bytes (every size the entry point lets
    through) whose byte [Data[3]] has a residue other than 3 modulo 4, the
    forced length is more than the input can back: the main loop emits
    exactly one record, whatever count [Data[0]] asks for, namely the header
    with the forced length, all input bytes from index 5 on, and pattern
    padding up to the forced length. *)
Theorem forced_length_gives_one_record (Data : list byte) (Size : Z) :
  valid_buffer Data Size ->
  4 < Size <= 32772 ->
  at_ Data 3 mod 4 <> 3 ->
  let forced := if at_ Data 3 mod 4 =? 0 then 0xFFFF
                else if at_ Data 3 mod 4 =? 1 then 0xFFF0
                else 0x7FFF in
  main_loop_output Data Size =
    Some ([IPTC_SENTINEL; at_ Data 1; at_ Data 2;
           forced / 256; forced mod 256] ++
          slice Data 5 (Z.to_nat (Size - 5)) ++
          pattern (Z.to_nat (forced - (Size - 5))) (Size - 5)).
Proof.
  intros Hvalid HS Hres forced.
  rewrite (main_loop_output_layout Data Size Hvalid).
  pose proof (record_count_range Data Size) as Hc.
  unfold base_records_of.
  destruct (Z.to_nat (record_count Data Size)) as [|todo] eqn:Et; [lia|].
  cbn [records_from]. destruct (Z.ltb_spec 1 Size) as [_ | ?]; [|lia].
  cbv zeta. set (r := record_at Data Size 0 1).
  assert (El : br_length r = forced).
  { subst r forced. rewrite (first_record_length Data Size) by lia.
    unfold declared_length. cbn [Z.eqb andb].
    destruct (Z.ltb_spec 4 Size); [|lia].
    pose proof (Z.mod_pos_bound (at_ Data 3) 4 ltac:(lia)).
    destruct (Z.eqb_spec (at_ Data 3 mod 4) 0); [reflexivity|].
    destruct (Z.eqb_spec (at_ Data 3 mod 4) 1); [reflexivity|].
    destruct (Z.eqb_spec (at_ Data 3 mod 4) 2); [reflexivity | lia]. }
  assert (Hf : 32767 <= forced).
  { subst forced. destruct (_ =? 0); [lia|]. destruct (_ =? 1); lia. }
  assert (Ep : br_payload r = 5).
  { subst r. cbn [record_at br_payload]. lia. }
  destruct (record_at_payload Data Size Hvalid 0 1 ltac:(lia))
    as (Er & Ln & Epad & _).
  fold r in Er, Ln, Epad. rewrite El, Ep in Er, Ln, Epad.
  replace (Z.min forced (Size - 5)) with (Size - 5) in * by lia.
  assert (Ee : br_end r = Size) by (unfold br_end; rewrite Ln, Ep; lia).
  rewrite Ee, (records_from_end Data Size). cbn [map concat].
  rewrite app_nil_r. unfold br_bytes. rewrite El, Er, Epad.
  assert (Erec : br_record r = at_ Data 2).
  { subst r. cbn [record_at br_record]. change (1 + 1) with 2.
    destruct (Z.ltb_spec 2 Size); [reflexivity | lia]. }
  rewrite Erec. change (br_dataset r) with (at_ Data 1).
  do 3 f_equal. f_equal; lia.
Qed.

Lemma forced_length_gives_one_record_witness :
  let Data := [x09; x01; x02; x05; x00; x41; x42] in
  let forced := if at_ Data 3 mod 4 =? 0 then 0xFFFF
                else if at_ Data 3 mod 4 =? 1 then 0xFFF0
                else 0x7FFF in
  main_loop_output Data 7 =
    Some ([IPTC_SENTINEL; at_ Data 1; at_ Data 2;
           forced / 256; forced mod 256] ++
          slice Data 5 (Z.to_nat (7 - 5)) ++
          pattern (Z.to_nat (forced - (7 - 5))) (7 - 5)).
Proof.
  apply (forced_length_gives_one_record [x09; x01; x02; x05; x00; x41; x42] 7).
  - split; [reflexivity | unfold SIZE_MAX; lia].
  - lia.
  - vm_compute. discriminate.
Defined.



(** X6.  On an input of more than four bytes the first record declares at
    least 768 payload bytes, all of them emitted, so the output has at least
    773 bytes; and the output is never longer than the input by more than
    65590 bytes. *)
Theorem profile_length_between (Data : list byte) (Size : Z) :
  valid_buffer Data Size ->
  4 < Size ->
  exists out,
    CreateMalformedIPTCProfile Data Size = Some out /\
    773 <= Z.of_nat (length out) <= Size + 65590.
Proof.
  intros Hvalid H4.
  destruct (CreateMalformedIPTCProfile_total Data Size Hvalid) as [out E].
  exists out. split; [exact E|].
  destruct (length_profile_ge_773 Data Size Hvalid H4 out E) as [Hlo _].
  pose proof (length_profile_le_input Data Size Hvalid out E). lia.
Qed.

Lemma profile_length_between_witness :
  exists out,
    CreateMalformedIPTCProfile [x00; x01; x02; x07; x00] 5 = Some out /\
    773 <= Z.of_nat (length out) <= 5 + 65590.
Proof.
  apply (profile_length_between [x00; x01; x02; x07; x00] 5).
  - split; [reflexivity | unfold SIZE_MAX; lia].
  - lia.
Defined.

(** X7.  The output is the base records followed by the four injections in
    their fixed order.  An injection is present exactly when its gate holds
    (byte [k] exists with one more byte after it and has the gate's residue
    modulo 4); it then writes its fixed bytes and copies at most 10, 20, 10
    and 10 input bytes.  These copies, taken together, are consecutive
    slices of the input left unread by the main loop, so the excess-length
    record always declares 1000 bytes and carries at most 20. *)
Theorem injections_follow_the_records (Data : list byte) (Size : Z) :
  valid_buffer Data Size ->
  exists recs o0 o1 o2 o3,
    base_records_layout Data Size recs /\
    o0 = cursor_after 1 recs /\
    (let advance k residue bound o :=
       if (k + 1 <? Size) && (at_ Data k mod 4 =? residue)
       then Z.min (o + bound) Size else o in
     o1 = advance 4 0 10 o0 /\ o2 = advance 5 1 20 o1 /\
     o3 = advance 6 2 10 o2) /\
    CreateMalformedIPTCProfile Data Size =
      Some (concat (map br_bytes recs) ++
            (if (5 <? Size) && (at_ Data 4 mod 4 =? 0)
             then [IPTC_SENTINEL] ++ slice Data o0 10 else []) ++
            (if (6 <? Size) && (at_ Data 5 mod 4 =? 1)
             then [IPTC_SENTINEL; 2; 5; 1000 / 256; 1000 mod 256]
                  ++ slice Data o1 20 else []) ++
            (if (7 <? Size) && (at_ Data 6 mod 4 =? 2)
             then [IPTC_SENTINEL; 2; 5; 0; 0] ++ slice Data o2 10 else []) ++
            (if (8 <? Size) && (at_ Data 7 mod 4 =? 3)
             then repeat IPTC_SENTINEL 5 ++ slice Data o3 10 else [])).
Proof.
  intros Hvalid.
  set (recs := base_records_of Data Size).
  set (o0 := cursor_after 1 recs).
  set (o1 := cursor_injected Size (gate Data Size 4 0) 10 o0).
  set (o2 := cursor_injected Size (gate Data Size 5 1) 20 o1).
  set (o3 := cursor_injected Size (gate Data Size 6 2) 10 o2).
  exists recs, o0, o1, o2, o3.
  split; [now apply base_records_of_layout|]. split; [reflexivity|].
  assert (A : forall k residue bound o,
            (k + 1 < Size -> o <= Size) ->
            cursor_injected Size (gate Data Size k residue) bound o
            = if (k + 1 <? Size) && (at_ Data k mod 4 =? residue)
              then Z.min (o + Z.of_nat bound) Size else o).
  { intros k residue bound o Ho. unfold cursor_injected, gate.
    destruct (Z.ltb_spec (k + 1) Size) as [L | G]; [|reflexivity].
    specialize (Ho L). cbn [andb]. destruct (_ =? _); [lia | reflexivity]. }
  assert (R : 1 < Size -> o0 <= Size /\ o1 <= Size /\ o2 <= Size).
  { intros H1.
    assert (H0 : 1 <= o0 <= Size)
      by (apply (cursor_after_range Data Size Hvalid); lia).
    pose proof (cursor_injected_range Size (gate Data Size 4 0) 10 o0
                  ltac:(lia)) as R1. fold o1 in R1.
    pose proof (cursor_injected_range Size (gate Data Size 5 1) 20 o1
                  ltac:(lia)) as R2. fold o2 in R2.
    lia. }
  split.
  { cbv zeta. split; [|split]; apply A; intros L;
      destruct (R ltac:(lia)) as (? & ? & ?); assumption. }
  rewrite (CreateMalformedIPTCProfile_layout Data Size Hvalid). cbv zeta.
  unfold early_injected, flood_injected, early_cursor, injected, gate.
  cbv zeta. fold recs o0.
  change (cursor_injected Size ((4 + 1 <? Size) && (at_ Data 4 mod 4 =? 0)) 10 o0)
    with o1.
  change (cursor_injected Size ((5 + 1 <? Size) && (at_ Data 5 mod 4 =? 1)) 20 o1)
    with o2.
  change (cursor_injected Size ((6 + 1 <? Size) && (at_ Data 6 mod 4 =? 2)) 10 o2)
    with o3.
  rewrite <- !app_assoc. reflexivity.
Qed.

Lemma injections_follow_the_records_witness :
  let Data := [x00; x01; x02; x03; x00; x41; x42; x43; x44] in
  exists recs o0 o1 o2 o3,
    base_records_layout Data 9 recs /\
    o0 = cursor_after 1 recs /\
    (let advance k residue bound o :=
       if (k + 1 <? 9) && (at_ Data k mod 4 =? residue)
       then Z.min (o + bound) 9 else o in
     o1 = advance 4 0 10 o0 /\ o2 = advance 5 1 20 o1 /\
     o3 = advance 6 2 10 o2) /\
    CreateMalformedIPTCProfile Data 9 =
      Some (concat (map br_bytes recs) ++
            (if (5 <? 9) && (at_ Data 4 mod 4 =? 0)
             then [IPTC_SENTINEL] ++ slice Data o0 10 else []) ++
            (if (6 <? 9) && (at_ Data 5 mod 4 =? 1)
             then [IPTC_SENTINEL; 2; 5; 1000 / 256; 1000 mod 256]
                  ++ slice Data o1 20 else []) ++
            (if (7 <? 9) && (at_ Data 6 mod 4 =? 2)
             then [IPTC_SENTINEL; 2; 5; 0; 0] ++ slice Data o2 10 else []) ++
            (if (8 <? 9) && (at_ Data 7 mod 4 =? 3)
             then repeat IPTC_SENTINEL 5 ++ slice Data o3 10 else [])).
Proof.
  apply (injections_follow_the_records
           [x00; x01; x02; x03; x00; x41; x42; x43; x44] 9).
  split; [reflexivity | unfold SIZE_MAX; lia].
Defined.

(** * Further properties of the entry points *)

Lemma hbind_call_ok {B} lib c (k : H B) h :
  lib h c = None -> hbind (call lib c) (fun _ => k) h = k (h ++ [c]).
Proof. intros E. unfold hbind, call. now rewrite E. Qed.

Lemma hbind_call_throws {B} lib c (k : H B) h e :
  lib h c = Some e -> hbind (call lib c) (fun _ => k) h = (Throws e, h ++ [c]).
Proof. intros E. unfold hbind, call. now rewrite E. Qed.

Lemma hbind_generated {B} out (f : list Z -> H B) h :
  hbind (generated (Some out)) f h = f out h.
Proof. reflexivity. Qed.

Lemma hbind_returns {A B} (m : H A) (f : A -> H B) h a h' :
  m h = (Returns a, h') -> hbind m f h = f a h'.
Proof. intros E. unfold hbind. now rewrite E. Qed.

Lemma try_catch_result (body : H unit) h :
  defined body -> try_catch body h = (Returns tt, snd (body h)).
Proof.
  intros Hd. specialize (Hd h). unfold try_catch.
  destruct (body h) as [[[] | e |] h']; cbn in *; congruence.
Qed.

(** A test block that starts with the call [c]: whatever throws inside,
    the block completes normally and has made the call [c]. *)
Lemma try_catch_block lib c (rest : H unit) h :
  extends rest -> defined rest ->
  exists t, try_catch (call lib c >>> rest) h = (Returns tt, h ++ c :: t).
Proof.
  intros He Hd. destruct (first_call lib c rest h He) as [t Ht].
  assert (D : defined (call lib c >>> rest)).
  { apply defined_hbind; [apply defined_call | intros _; exact Hd]. }
  exists t. rewrite (try_catch_result _ h D) in *.
  cbn [snd] in Ht. now rewrite Ht.
Qed.

Lemma snd_call_then {B} lib c (k : H B) h :
  extends k ->
  exists t, snd (hbind (call lib c) (fun _ => k) h) = h ++ c :: t.
Proof.
  intros Hk. unfold hbind, call. destruct (lib h c); cbn; [now exists []|].
  destruct (Hk (h ++ [c])) as [t Ht]. exists t.
  now rewrite Ht, <- app_assoc.
Qed.

Lemma try_catch_call lib c h :
  try_catch (call lib c) h = (Returns tt, h ++ [c]).
Proof. unfold try_catch, call. now destruct (lib h c). Qed.

Lemma inside_window Size :
  8 <= Size <= 8192 -> IsInvalidSize Size 8 || (Size >? 65536) = false.
Proof.
  intros Hw. destruct (_ || _) eqn:G; [|reflexivity].
  apply size_guard in G. lia.
Qed.

Lemma input_bytes_valid Data Size :
  valid_buffer Data Size -> input_bytes Data Size = map byte_val Data.
Proof.
  intros [HS _]. unfold input_bytes.
  apply firstn_all2. rewrite length_map. lia.
Qed.

(** X8.  Whenever the advanced harness gets as far as constructing the
    image, the very next library call makes a blob of the generated profile,
    and that profile starts with the sentinel and has between 773 and 73782
    bytes. *)
Theorem advanced_harness_profile_size (lib : Library) (Data : list byte)
  (Size : Z) (h : list Call) :
  valid_buffer Data Size ->
  8 <= Size <= 8192 ->
  lib h (NewImage 10 10 "white") = None ->
  exists out t,
    CreateMalformedIPTCProfile Data Size = Some out /\
    snd (IptcProfileAdvancedFuzzer.LLVMFuzzerTestOneInput lib Data Size h)
      = h ++ NewImage 10 10 "white" :: NewBlob out :: t /\
    nth 0 out 0 = IPTC_SENTINEL /\
    773 <= Z.of_nat (length out) <= 73782.
Proof.
  intros Hvalid Hw EA.
  destruct (CreateMalformedIPTCProfile_total Data Size Hvalid) as [out E].
  destruct (length_profile_ge_773 Data Size Hvalid ltac:(lia) out E) as [Hlo Hs].
  pose proof (length_profile_le_input Data Size Hvalid out E) as Hhi.
  unfold IptcProfileAdvancedFuzzer.LLVMFuzzerTestOneInput,
    IptcProfileAdvancedFuzzer.MIN_IPTC_SIZE,
    IptcProfileAdvancedFuzzer.MAX_IPTC_SIZE.
  rewrite (inside_window Size Hw), E, snd_hbind_hret.
  rewrite try_catch_result by harness_shape.
  rewrite (hbind_call_ok lib _ _ h EA), hbind_generated.
  match goal with
  | |- context [snd (hbind (call lib ?c) (fun _ => ?k) ?h0)] =>
      assert (X : exists t, snd (hbind (call lib c) (fun _ => k) h0)
                            = h0 ++ c :: t)
        by (apply snd_call_then; harness_shape)
  end.
  destruct X as [t Ht]. exists out, t.
  split; [reflexivity|]. split.
  { rewrite Ht, <- app_assoc. reflexivity. }
  split; [exact Hs | lia].
Qed.

Lemma advanced_harness_profile_size_witness :
  exists out t,
    CreateMalformedIPTCProfile [x00; x02; x05; x03; x00; x61; x62; x63] 8
      = Some out /\
    snd (IptcProfileAdvancedFuzzer.LLVMFuzzerTestOneInput (fun _ _ => None)
           [x00; x02; x05; x03; x00; x61; x62; x63] 8 [])
      = [] ++ NewImage 10 10 "white" :: NewBlob out :: t /\
    nth 0 out 0 = IPTC_SENTINEL /\
    773 <= Z.of_nat (length out) <= 73782.
Proof.
  apply (advanced_harness_profile_size (fun _ _ => None)
           [x00; x02; x05; x03; x00; x61; x62; x63] 8 []).
  - split; [reflexivity | unfold SIZE_MAX; lia].
  - lia.
  - reflexivity.
Defined.

Lemma entry_returns_zero (body : H unit) h h' :
  (body h = (Returns tt, h') \/ exists e, body h = (Throws e, h')) ->
  (try_catch body >>> hret 0) h = (Returns 0, h').
Proof.
  intros [E | [e E]]; unfold hbind, try_catch, hret; now rewrite E.
Qed.

(** X9.  In the advanced harness the three set-up calls (image, blob,
    attaching the profile) decide everything: if one of them throws, the
    harness returns 0 right after it and runs no test; if none throws, all
    four tests are started, in order, whatever is thrown inside them. *)
Theorem advanced_harness_runs_every_test (lib : Library) (Data : list byte)
  (Size : Z) (h : list Call) :
  valid_buffer Data Size ->
  8 <= Size <= 8192 ->
  exists out,
    CreateMalformedIPTCProfile Data Size = Some out /\
    let run := IptcProfileAdvancedFuzzer.LLVMFuzzerTestOneInput lib Data Size h in
    let image := NewImage 10 10 "white" in
    let blob := NewBlob out in
    let attach := SetProfile "image" "iptc" out in
    (lib h image <> None -> run = (Returns 0, h ++ [image])) /\
    (lib h image = None ->
     lib (h ++ [image]) blob <> None ->
     run = (Returns 0, h ++ [image; blob])) /\
    (lib h image = None ->
     lib (h ++ [image]) blob = None ->
     lib (h ++ [image; blob]) attach <> None ->
     run = (Returns 0, h ++ [image; blob; attach])) /\
    (lib h image = None ->
     lib (h ++ [image]) blob = None ->
     lib (h ++ [image; blob]) attach = None ->
     exists t1 t3 t4,
       run = (Returns 0,
              h ++ [image; blob; attach] ++
              NewEmptyBlob :: t1 ++
              Identify "image" ::
              CopyImage "image" :: t3 ++
              NewBlob (map byte_val Data) :: t4)).
Proof.
  intros Hvalid Hw.
  destruct (CreateMalformedIPTCProfile_total Data Size Hvalid) as [out E].
  exists out. split; [exact E|]. cbv zeta.
  unfold IptcProfileAdvancedFuzzer.LLVMFuzzerTestOneInput,
    IptcProfileAdvancedFuzzer.MIN_IPTC_SIZE,
    IptcProfileAdvancedFuzzer.MAX_IPTC_SIZE.
  rewrite (inside_window Size Hw), E, (input_bytes_valid Data Size Hvalid).
  split; [|split; [|split]].
  - intros NA. destruct (lib h (NewImage 10 10 "white")) as [e|] eqn:EA;
      [|congruence].
    apply entry_returns_zero. right. exists e.
    now apply hbind_call_throws.
  - intros EA NB.
    destruct (lib (h ++ [NewImage 10 10 "white"]) (NewBlob out)) as [e|] eqn:EB;
      [|congruence].
    apply entry_returns_zero. right. exists e.
    rewrite (hbind_call_ok lib _ _ h EA), hbind_generated.
    rewrite (hbind_call_throws lib _ _ _ e EB), <- app_assoc. reflexivity.
  - intros EA EB NC.
    destruct (lib (h ++ [NewImage 10 10 "white"; NewBlob out])
                (SetProfile "image" "iptc" out)) as [e|] eqn:EC; [|congruence].
    apply entry_returns_zero. right. exists e.
    rewrite (hbind_call_ok lib _ _ h EA), hbind_generated.
    rewrite (hbind_call_ok lib _ _ _ EB), <- app_assoc. cbn [app].
    rewrite (hbind_call_throws lib _ _ _ e EC), <- app_assoc. reflexivity.
  - intros EA EB EC.
    set (h3 := (h ++ [NewImage 10 10 "white"; NewBlob out])
               ++ [SetProfile "image" "iptc" out]).
    destruct (try_catch_block lib NewEmptyBlob
                (call lib (WriteBlob "image" "TIFF") >>>
                 call lib NewEmptyImage >>>
                 call lib (ReadBlob "newImage") >>>
                 call lib (GetProfile "newImage" "iptc")) h3
                ltac:(harness_shape) ltac:(harness_shape)) as [t1 E1].
    set (h4 := h3 ++ NewEmptyBlob :: t1) in *.
    pose proof (try_catch_call lib (Identify "image") h4) as E2.
    set (h5 := h4 ++ [Identify "image"]) in *.
    destruct (try_catch_block lib (CopyImage "image")
                (call lib (Resize "clonedImage" 20 20) >>>
                 call lib (GetProfile "clonedImage" "iptc")) h5
                ltac:(harness_shape) ltac:(harness_shape)) as [t3 E3].
    set (h6 := h5 ++ CopyImage "image" :: t3) in *.
    destruct (try_catch_block lib (NewBlob (map byte_val Data))
                (call lib (SetProfile "image" "exif" (map byte_val Data)) >>>
                 call lib NewEmptyBlob >>>
                 call lib (SetProfile "image" "iptc" []) >>>
                 call lib (SetProfile "image" "iptc" out)) h6
                ltac:(harness_shape) ltac:(harness_shape)) as [t4 E4].
    exists t1, t3, t4.
    replace (h ++ [NewImage 10 10 "white"; NewBlob out;
                   SetProfile "image" "iptc" out] ++
             NewEmptyBlob :: t1 ++
             Identify "image" :: CopyImage "image" :: t3 ++
             NewBlob (map byte_val Data) :: t4)
      with (h6 ++ NewBlob (map byte_val Data) :: t4).
    2:{ subst h6 h5 h4 h3. repeat rewrite <- app_assoc. reflexivity. }
    apply entry_returns_zero. left.
    rewrite (hbind_call_ok lib _ _ h EA), hbind_generated.
    rewrite (hbind_call_ok lib _ _ _ EB), <- app_assoc. cbn [app].
    rewrite (hbind_call_ok lib _ _ _ EC). fold h3.
    rewrite (hbind_returns _ _ h3 tt h4 E1).
    rewrite (hbind_returns _ _ h4 tt h5 E2).
    rewrite (hbind_returns _ _ h5 tt h6 E3).
    exact E4.
Qed.

Lemma advanced_harness_runs_every_test_witness :
  let lib : Library :=
    fun _ c => match c with
               | WriteBlob _ _ => Some (MagickError "no encode delegate")
               | _ => None
               end in
  let Data := [x00; x02; x05; x03; x00; x61; x62; x63] in
  let h : list Call := [] in
  exists out,
    CreateMalformedIPTCProfile Data 8 = Some out /\
    let run := IptcProfileAdvancedFuzzer.LLVMFuzzerTestOneInput lib Data 8 h in
    let image := NewImage 10 10 "white" in
    let blob := NewBlob out in
    let attach := SetProfile "image" "iptc" out in
    (lib h image <> None -> run = (Returns 0, h ++ [image])) /\
    (lib h image = None ->
     lib (h ++ [image]) blob <> None ->
     run = (Returns 0, h ++ [image; blob])) /\
    (lib h image = None ->
     lib (h ++ [image]) blob = None ->
     lib (h ++ [image; blob]) attach <> None ->
     run = (Returns 0, h ++ [image; blob; attach])) /\
    (lib h image = None ->
     lib (h ++ [image]) blob = None ->
     lib (h ++ [image; blob]) attach = None ->
     exists t1 t3 t4,
       run = (Returns 0,
              h ++ [image; blob; attach] ++
              NewEmptyBlob :: t1 ++
              Identify "image" ::
              CopyImage "image" :: t3 ++
              NewBlob (map byte_val Data) :: t4)).
Proof.
  cbv zeta.
  apply (advanced_harness_runs_every_test _
           [x00; x02; x05; x03; x00; x61; x62; x63] 8 []).
  - split; [reflexivity | unfold SIZE_MAX; lia].
  - lia.
Defined.

(** X10.  The basic harness hands the library the input bytes unchanged.
    If constructing the image, making the blob or attaching the profile
    throws, it returns 0 right after that call and runs no test; otherwise
    both tests (the TIFF round trip and the property queries) are started,
    whatever is thrown inside them. *)
Theorem basic_harness_runs_every_test (lib : Library) (Data : list byte)
  (Size : Z) (h : list Call) :
  valid_buffer Data Size ->
  8 <= Size <= 8192 ->
  let run := IptcProfileFuzzer.LLVMFuzzerTestOneInput lib Data Size h in
  let image := NewImage 10 10 "white" in
  let blob := NewBlob (map byte_val Data) in
  let attach := SetProfile "image" "iptc" (map byte_val Data) in
  (lib h image <> None -> run = (Returns 0, h ++ [image])) /\
  (lib h image = None ->
   lib (h ++ [image]) blob <> None ->
   run = (Returns 0, h ++ [image; blob])) /\
  (lib h image = None ->
   lib (h ++ [image]) blob = None ->
   lib (h ++ [image; blob]) attach <> None ->
   run = (Returns 0, h ++ [image; blob; attach])) /\
  (lib h image = None ->
   lib (h ++ [image]) blob = None ->
   lib (h ++ [image; blob]) attach = None ->
   exists t1 t2,
     run = (Returns 0,
            h ++ [image; blob; attach] ++
            NewEmptyBlob :: t1 ++
            Attribute "image" "IPTC:*" :: t2)).
Proof.
  intros Hvalid Hw. cbv zeta.
  unfold IptcProfileFuzzer.LLVMFuzzerTestOneInput,
    IptcProfileFuzzer.MIN_IPTC_SIZE, IptcProfileFuzzer.MAX_IPTC_SIZE.
  rewrite (inside_window Size Hw), (input_bytes_valid Data Size Hvalid).
  split; [|split; [|split]].
  - intros NA. destruct (lib h (NewImage 10 10 "white")) as [e|] eqn:EA;
      [|congruence].
    apply entry_returns_zero. right. exists e.
    now apply hbind_call_throws.
  - intros EA NB.
    destruct (lib (h ++ [NewImage 10 10 "white"]) (NewBlob (map byte_val Data)))
      as [e|] eqn:EB; [|congruence].
    apply entry_returns_zero. right. exists e.
    rewrite (hbind_call_ok lib _ _ h EA).
    rewrite (hbind_call_throws lib _ _ _ e EB), <- app_assoc. reflexivity.
  - intros EA EB NC.
    destruct (lib (h ++ [NewImage 10 10 "white"; NewBlob (map byte_val Data)])
                (SetProfile "image" "iptc" (map byte_val Data)))
      as [e|] eqn:EC; [|congruence].
    apply entry_returns_zero. right. exists e.
    rewrite (hbind_call_ok lib _ _ h EA).
    rewrite (hbind_call_ok lib _ _ _ EB), <- app_assoc. cbn [app].
    rewrite (hbind_call_throws lib _ _ _ e EC), <- app_assoc. reflexivity.
  - intros EA EB EC.
    set (h3 := (h ++ [NewImage 10 10 "white"; NewBlob (map byte_val Data)])
               ++ [SetProfile "image" "iptc" (map byte_val Data)]).
    destruct (try_catch_block lib NewEmptyBlob
                (call lib (WriteBlob "image" "TIFF") >>>
                 call lib NewEmptyImage >>>
                 call lib (ReadBlob "newImage") >>>
                 call lib (GetProfile "newImage" "iptc")) h3
                ltac:(harness_shape) ltac:(harness_shape)) as [t1 E1].
    set (h4 := h3 ++ NewEmptyBlob :: t1) in *.
    destruct (try_catch_block lib (Attribute "image" "IPTC:*")
                (call lib (FileName "image") >>>
                 call lib (Format "image") >>>
                 call lib (ImageSize "image")) h4
                ltac:(harness_shape) ltac:(harness_shape)) as [t2 E2].
    exists t1, t2.
    replace (h ++ [NewImage 10 10 "white"; NewBlob (map byte_val Data);
                   SetProfile "image" "iptc" (map byte_val Data)] ++
             NewEmptyBlob :: t1 ++ Attribute "image" "IPTC:*" :: t2)
      with (h4 ++ Attribute "image" "IPTC:*" :: t2).
    2:{ subst h4 h3. repeat rewrite <- app_assoc. reflexivity. }
    apply entry_returns_zero. left.
    rewrite (hbind_call_ok lib _ _ h EA).
    rewrite (hbind_call_ok lib _ _ _ EB), <- app_assoc. cbn [app].
    rewrite (hbind_call_ok lib _ _ _ EC). fold h3.
    rewrite (hbind_returns _ _ h3 tt h4 E1).
    exact E2.
Qed.

Lemma basic_harness_runs_every_test_witness :
  let lib : Library :=
    fun _ c => match c with
               | WriteBlob _ _ => Some (MagickError "no encode delegate")
               | _ => None
               end in
  let Data := [x1c; x02; x05; x00; x03; x61; x62; x63] in
  let h : list Call := [] in
  let run := IptcProfileFuzzer.LLVMFuzzerTestOneInput lib Data 8 h in
  let image := NewImage 10 10 "white" in
  let blob := NewBlob (map byte_val Data) in
  let attach := SetProfile "image" "iptc" (map byte_val Data) in
  (lib h image <> None -> run = (Returns 0, h ++ [image])) /\
  (lib h image = None ->
   lib (h ++ [image]) blob <> None ->
   run = (Returns 0, h ++ [image; blob])) /\
  (lib h image = None ->
   lib (h ++ [image]) blob = None ->
   lib (h ++ [image; blob]) attach <> None ->
   run = (Returns 0, h ++ [image; blob; attach])) /\
  (lib h image = None ->
   lib (h ++ [image]) blob = None ->
   lib (h ++ [image; blob]) attach = None ->
   exists t1 t2,
     run = (Returns 0,
            h ++ [image; blob; attach] ++
            NewEmptyBlob :: t1 ++
            Attribute "image" "IPTC:*" :: t2)).
Proof.
  cbv zeta.
  apply (basic_harness_runs_every_test _
           [x1c; x02; x05; x00; x03; x61; x62; x63] 8 []).
  - split; [reflexivity | unfold SIZE_MAX; lia].
  - lia.
Defined.

(** * Further properties of the corpus generators *)

(** ** The array of [GenerateIPTCTestCase] *)

Section Buffer.

Variable garbage : list Z.
Hypothesis Hgarbage : length garbage = 1024%nat.

Import IptcProfileFuzzerTool.

Lemma store_written w v :
  (length w < 1024)%nat ->
  store (Z.of_nat (length w)) v (w ++ skipn (length w) garbage)
  = Some ((w ++ [to_uint8 v]) ++ skipn (length (w ++ [to_uint8 v])) garbage).
Proof.
  intros Hw. unfold store.
  replace ((0 <=? Z.of_nat (length w)) && (Z.of_nat (length w) <? 1024))
    with true by (symmetry; apply andb_true_iff; split; lia).
  rewrite Nat2Z.id. f_equal.
  rewrite firstn_app, Nat.sub_diag, firstn_all, firstn_O, app_nil_r.
  rewrite skipn_app, skipn_all2 by lia.
  replace (S (length w) - length w)%nat with 1%nat by lia.
  rewrite skipn_skipn, length_app, <- app_assoc. cbn [length app].
  do 3 f_equal. lia.
Qed.

Lemma store_next_written w v :
  (length w < 1024)%nat ->
  store_next v (written garbage w) = Some (written garbage (w ++ [to_uint8 v])).
Proof.
  intros Hw. unfold store_next, written.
  rewrite store_written by exact Hw.
  rewrite length_app. cbn [length].
  rewrite to_size_t_small by (unfold SIZE_MAX; lia).
  now rewrite Nat2Z.inj_add.
Qed.

Lemma memcpy_written src : forall pre done,
  (length pre + length done + length src <= 1024)%nat ->
  memcpy src (Z.of_nat (length done))
    ((pre ++ done) ++ skipn (length (pre ++ done)) garbage,
     Z.of_nat (length pre))
  = Some ((pre ++ done ++ map to_uint8 src)
            ++ skipn (length (pre ++ done ++ map to_uint8 src)) garbage,
          Z.of_nat (length pre)).
Proof.
  induction src as [|v src IH]; intros pre done Hlen; cbn [memcpy map].
  - now rewrite app_nil_r.
  - cbn [length] in Hlen.
    replace (Z.of_nat (length pre) + Z.of_nat (length done))
      with (Z.of_nat (length (pre ++ done))) by (rewrite length_app; lia).
    rewrite store_written by (rewrite length_app; lia).
    replace (Z.of_nat (length done) + 1)
      with (Z.of_nat (length (done ++ [to_uint8 v])))
      by (rewrite length_app; cbn [length]; lia).
    rewrite <- (app_assoc pre done [to_uint8 v]).
    rewrite IH by (rewrite length_app; cbn [length]; lia).
    rewrite <- (app_assoc done). reflexivity.
Qed.

Lemma seq_step (s1 s2 : Stmt) a a' : s1 a = Some a' -> (s1 ;> s2) a = s2 a'.
Proof. intros E. unfold seq. now rewrite E. Qed.

Lemma memcpy_from_written w src :
  (length w + length src <= 1024)%nat ->
  memcpy src 0 (written garbage w)
  = Some ((w ++ map to_uint8 src)
            ++ skipn (length (w ++ map to_uint8 src)) garbage,
          Z.of_nat (length w)).
Proof.
  intros Hlen.
  pose proof (memcpy_written src w [] ltac:(cbn [length]; lia)) as E.
  cbn [length app] in E. rewrite app_nil_r in E. exact E.
Qed.

Lemma advance_written w src n :
  n = Z.of_nat (length src) ->
  (length w + length src <= 1024)%nat ->
  advance n ((w ++ map to_uint8 src)
               ++ skipn (length (w ++ map to_uint8 src)) garbage,
             Z.of_nat (length w))
  = Some (written garbage (w ++ map to_uint8 src)).
Proof.
  intros -> Hlen. unfold advance, written.
  rewrite to_size_t_small by (unfold SIZE_MAX; lia).
  now rewrite length_app, length_map, Nat2Z.inj_add.
Qed.

Lemma fill_pattern_written todo : forall i w,
  0 <= i -> i + Z.of_nat todo <= SIZE_MAX ->
  (length w + todo <= 1024)%nat ->
  fill_pattern todo i (written garbage w)
  = Some (written garbage (w ++ pattern todo i)).
Proof.
  induction todo as [|todo IH]; intros i w Hi Hmax Hlen;
    cbn [fill_pattern pattern].
  - now rewrite app_nil_r.
  - unfold seq. rewrite store_next_written by lia.
    assert (Hmod : 0 <= i mod 26 < 26) by (apply Z.mod_pos_bound; lia).
    rewrite (to_size_t_small (65 + i mod 26)) by (unfold SIZE_MAX; lia).
    rewrite to_uint8_small by lia.
    rewrite (to_size_t_small (i + 1)) by lia.
    rewrite IH by (rewrite ?length_app; cbn [length]; lia).
    now rewrite <- app_assoc.
Qed.

Lemma build_records_written :
  build_records (written garbage []) = Some (written garbage basic_profile).
Proof.
  unfold build_records. cbv zeta.
  do 5 (erewrite seq_step
          by (apply store_next_written; cbn [length app]; lia)).
  erewrite seq_step by (apply memcpy_from_written; vm_compute; lia).
  erewrite seq_step
    by (apply advance_written; [reflexivity | vm_compute; lia]).
  do 5 (erewrite seq_step
          by (apply store_next_written; vm_compute; lia)).
  rewrite fill_pattern_written
    by first [lia | unfold SIZE_MAX; lia | vm_compute; lia].
  match goal with
  | |- Some (written _ ?w) = _ =>
      replace w with basic_profile by (vm_compute; reflexivity)
  end.
  reflexivity.
Qed.

End Buffer.

Lemma GenerateIPTCTestCase_blob (garbage : list Z) :
  length garbage = 1024%nat ->
  exists iptcData,
    IptcProfileFuzzerTool.build_records (garbage, 0) = Some (iptcData, 281) /\
    firstn (Z.to_nat 281) iptcData = basic_profile.
Proof.
  intros Hgarbage.
  pose proof (build_records_written garbage Hgarbage) as E.
  assert (L : length basic_profile = 281%nat) by (vm_compute; reflexivity).
  unfold written in E. cbn [length app skipn] in E. rewrite L in E.
  change (Z.of_nat 0) with 0 in E. change (Z.of_nat 281) with 281 in E.
  exists (basic_profile ++ skipn 281 garbage). split; [exact E|].
  change (Z.to_nat 281) with 281%nat.
  rewrite firstn_app, L, Nat.sub_diag, firstn_O, app_nil_r.
  rewrite <- L. apply firstn_all.
Qed.

(** X11.  Whatever the uninitialised array [iptcData[1024]] holds on entry,
    [GenerateIPTCTestCase] stores only inside the array (a store outside it
    has no result in this embedding), ends with [offset = 281], and the 281
    bytes it hands to the library are the two records it means to write,
    none of them left over from the array's earlier contents; the rest of
    the array is not touched. *)
Theorem GenerateIPTCTestCase_fills_281_bytes (garbage : list Z) :
  length garbage = 1024%nat ->
  exists iptcData,
    IptcProfileFuzzerTool.build_records (garbage, 0) = Some (iptcData, 281) /\
    length iptcData = 1024%nat /\
    firstn 281 iptcData = basic_profile /\
    skipn 281 iptcData = skipn 281 garbage.
Proof.
  intros Hgarbage.
  pose proof (build_records_written garbage Hgarbage) as E.
  assert (L : length basic_profile = 281%nat) by (vm_compute; reflexivity).
  unfold written in E. cbn [length app skipn] in E. rewrite L in E.
  change (Z.of_nat 0) with 0 in E. change (Z.of_nat 281) with 281 in E.
  exists (basic_profile ++ skipn 281 garbage).
  split; [exact E|]. split; [|split].
  - rewrite length_app, length_skipn, L, Hgarbage. reflexivity.
  - rewrite firstn_app, L, Nat.sub_diag, firstn_O, app_nil_r.
    rewrite <- L. apply firstn_all.
  - rewrite skipn_app, L, Nat.sub_diag.
    rewrite (skipn_all2 basic_profile) by (rewrite L; lia). reflexivity.
Qed.

Lemma GenerateIPTCTestCase_fills_281_bytes_witness :
  exists iptcData,
    IptcProfileFuzzerTool.build_records (repeat 255 1024, 0)
      = Some (iptcData, 281) /\
    length iptcData = 1024%nat /\
    firstn 281 iptcData = basic_profile /\
    skipn 281 iptcData = skipn 281 (repeat 255 1024).
Proof.
  apply (GenerateIPTCTestCase_fills_281_bytes (repeat 255 1024)).
  reflexivity.
Defined.

(** ** Protected blocks of library calls *)

Lemma tbind_step {A B} (m : Tool A) (f : A -> Tool B) h a h' :
  m h = (Returns a, h') -> tbind m f h = f a h'.
Proof. intros E. unfold tbind. now rewrite E. Qed.

Lemma all_return_O lib h calls : all_return lib h calls 0.
Proof. intros j c Hj. lia. Qed.

Lemma all_return_S lib h c calls k :
  lib h c = None ->
  all_return lib (h ++ [c]) calls k ->
  all_return lib h (c :: calls) (S k).
Proof.
  intros E A [|j] c' Hj Hn; cbn [nth_error firstn] in *.
  - injection Hn as <-. now rewrite app_nil_r.
  - specialize (A j c' ltac:(lia) Hn). now rewrite <- app_assoc in A.
Qed.

Lemma perform_each_spec lib calls (last : Tool unit) : forall h,
  (all_return lib h calls (length calls) /\
   perform_each lib calls last h = last (h ++ calls)) \/
  (exists k e,
     all_return lib h calls k /\ throws_at lib h calls k e /\
     perform_each lib calls last h = (Throws e, h ++ firstn (S k) calls)).
Proof.
  induction calls as [|c calls IH]; intros h.
  - left. split; [apply all_return_O | cbn; now rewrite app_nil_r].
  - cbn [perform_each]. unfold tbind, perform.
    destruct (lib h c) as [e|] eqn:E.
    + right. exists 0%nat, e. split; [apply all_return_O|]. split.
      * exists c. split; [reflexivity | cbn; now rewrite app_nil_r].
      * reflexivity.
    + destruct (IH (h ++ [c])) as [[A R] | (k & e & A & (c' & N & T) & R)].
      * left. split; [now apply all_return_S|].
        rewrite R, <- app_assoc. reflexivity.
      * right. exists (S k), e. split; [now apply all_return_S|]. split.
        -- exists c'. split; [exact N|].
           cbn [firstn]. now rewrite <- app_assoc in T.
        -- rewrite R, <- app_assoc. reflexivity.
Qed.

Lemma try_handle_attempt lib calls (last : Tool unit) success failure h :
  (forall h', last h' = (Returns tt, h' ++ success)) ->
  exists block,
    try_handle (perform_each lib calls last) (fun e => print (failure e)) h
    = (Returns tt, h ++ block) /\
    attempt lib h calls success failure block.
Proof.
  intros Hlast. unfold try_handle.
  destruct (perform_each_spec lib calls last h)
    as [[A R] | (k & e & A & T & R)]; rewrite R.
  - exists (calls ++ success). rewrite Hlast, <- app_assoc.
    split; [reflexivity | left; now split].
  - exists (firstn (S k) calls ++ [failure e]). unfold print.
    rewrite <- app_assoc.
    split; [reflexivity | right; exists k, e; now repeat split].
Qed.

Lemma perform_each_last lib c calls : forall h,
  perform_each lib calls (perform lib c) h
  = perform_each lib (calls ++ [c]) (tret tt) h.
Proof.
  induction calls as [|c' calls IH]; intros h; cbn [perform_each app].
  - unfold tbind, perform, tret. now destruct (lib h c).
  - unfold tbind. destruct (perform lib c' h) as [[[]| |] h']; auto.
Qed.

Lemma basic_block lib blob filename h :
  exists block,
    try_handle (
      perform lib (Magick (NewImage 10 10 "white")) >>-
      perform lib (Magick (NewBlob blob)) >>-
      perform lib (Magick (SetProfile "image" "iptc" blob)) >>-
      perform lib (WriteFile "image" filename))
    (fun e => print (Cerr ("Error generating test case: " ++ what e))) h
    = (Returns tt, h ++ block) /\
    attempt lib h (profile_calls blob filename) []
      (fun e => Cerr ("Error generating test case: " ++ what e)) block.
Proof.
  destruct (try_handle_attempt lib (profile_calls blob filename)
              (tret tt) []
              (fun e => Cerr ("Error generating test case: " ++ what e)) h)
    as (block & R & A).
  { intros h'. unfold tret. now rewrite app_nil_r. }
  exists block. split; [|exact A].
  rewrite <- R. unfold try_handle, profile_calls.
  change [Magick (NewImage 10 10 "white"); Magick (NewBlob blob);
          Magick (SetProfile "image" "iptc" blob);
          WriteFile "image" filename]
    with ([Magick (NewImage 10 10 "white"); Magick (NewBlob blob);
           Magick (SetProfile "image" "iptc" blob)]
            ++ [WriteFile "image" filename]).
  rewrite <- perform_each_last. reflexivity.
Qed.

(** X12.  [GenerateIPTCTestCase] never lets an exception escape.  It asks
    the library for the image, the blob of the 281 profile bytes, the
    profile and the file, in this order and only as far as none of them
    throws; when one throws, the only further effect is the line "Error
    generating test case: ..." on [std::cerr].  In particular the file is
    written only after the three earlier calls returned, and nothing is
    printed when all four return. *)
Theorem GenerateIPTCTestCase_reports_and_returns (lib : ToolLibrary)
  (garbage : list Z) (filename : string) (h : list Effect) :
  length garbage = 1024%nat ->
  exists block,
    IptcProfileFuzzerTool.GenerateIPTCTestCase lib garbage filename h
    = (Returns tt, h ++ block) /\
    attempt lib h (profile_calls basic_profile filename) []
      (fun e => Cerr ("Error generating test case: " ++ what e)) block.
Proof.
  intros Hgarbage.
  destruct (GenerateIPTCTestCase_blob garbage Hgarbage)
    as (iptcData & E & B).
  unfold IptcProfileFuzzerTool.GenerateIPTCTestCase. rewrite E, B.
  apply basic_block.
Qed.

Lemma GenerateIPTCTestCase_reports_and_returns_witness :
  exists block,
    IptcProfileFuzzerTool.GenerateIPTCTestCase
      (fun _ c => match c with
                  | WriteFile _ _ => Some (MagickError "no such directory")
                  | _ => None
                  end)
      (repeat 0 1024) "out/case.tiff" []
    = (Returns tt, [] ++ block) /\
    attempt
      (fun _ c => match c with
                  | WriteFile _ _ => Some (MagickError "no such directory")
                  | _ => None
                  end)
      [] (profile_calls basic_profile "out/case.tiff") []
      (fun e => Cerr ("Error generating test case: " ++ what e)) block.
Proof.
  apply (GenerateIPTCTestCase_reports_and_returns _ (repeat 0 1024)).
  reflexivity.
Defined.

(** ** The loop of [GenerateIPTCTestCases] *)

Lemma write_test_cases_attempts lib directory cases : forall i h,
  0 <= i -> i + Z.of_nat (length cases) <= SIZE_MAX ->
  exists blocks,
    IptcProfileAdvancedFuzzerTool.write_test_cases lib directory cases i h
    = (Returns tt, h ++ concat blocks) /\
    attempts lib directory cases (i + 1) h blocks.
Proof.
  induction cases as [|testCase cases IH]; intros i h Hi Hmax.
  - exists []. cbn. unfold tret. now rewrite app_nil_r.
  - cbn [length] in Hmax.
    cbn [IptcProfileAdvancedFuzzerTool.write_test_cases].
    unfold IptcProfileAdvancedFuzzerTool.write_test_case. cbv zeta.
    rewrite (to_size_t_small (i + 1)) by lia.
    set (filename :=
           IptcProfileAdvancedFuzzerTool.snprintf_filename directory (i + 1)).
    destruct (try_handle_attempt lib (profile_calls testCase filename)
                (print (Cout ("Generated test case: " ++ filename)))
                [Cout ("Generated test case: " ++ filename)]
                (fun e => Cerr ("Error generating test case "
                                ++ decimal (i + 1) ++ ": " ++ what e)) h)
      as (block & R & A); [reflexivity|].
    destruct (IH (i + 1) (h ++ block) ltac:(lia) ltac:(lia))
      as (blocks & R' & A').
    exists (block :: blocks). split.
    + unfold tbind at 1.
      change (try_handle _ _ h)
        with (try_handle
                (perform_each lib (profile_calls testCase filename)
                   (print (Cout ("Generated test case: " ++ filename))))
                (fun e => print (Cerr ("Error generating test case "
                                       ++ decimal (i + 1) ++ ": " ++ what e)))
                h).
      rewrite R, R'. cbn [concat]. now rewrite app_assoc.
    + cbn [attempts]. split; [exact A | exact A'].
Qed.

Lemma attempts_length lib directory cases : forall n h blocks,
  attempts lib directory cases n h blocks -> length blocks = length cases.
Proof.
  induction cases as [|c cases IH]; intros n h [|b blocks] A;
    cbn [attempts] in A; try contradiction; [reflexivity|].
  destruct A as [_ A]. cbn [length]. f_equal. exact (IH _ _ _ A).
Qed.

Lemma attempt_one_report lib h blob filename success failure block :
  attempt lib h (profile_calls blob filename) [success] failure block ->
  is_report success = true ->
  (forall e, is_report (failure e) = true) ->
  length (filter is_report block) = 1%nat.
Proof.
  intros [[_ ->] | (k & e & _ & _ & ->)] Hs Hf.
  - rewrite filter_app. cbn [profile_calls filter is_report app]. now rewrite Hs.
  - rewrite filter_app. cbn [filter]. rewrite Hf, length_app.
    destruct k as [|[|[|[|k]]]]; reflexivity.
Qed.

Lemma attempts_reports lib directory cases : forall n h blocks,
  attempts lib directory cases n h blocks ->
  length (filter is_report (concat blocks)) = length cases.
Proof.
  induction cases as [|c cases IH]; intros n h [|b blocks] A;
    cbn [attempts] in A; try contradiction; [reflexivity|].
  destruct A as [A A']. cbn [concat length].
  rewrite filter_app, length_app, (IH _ _ _ A').
  erewrite attempt_one_report; [reflexivity | exact A | reflexivity|].
  intros e. reflexivity.
Qed.

(** X13.  [GenerateIPTCTestCases] never lets an exception escape and a
    failing test case does not stop the later ones: the effects are eight
    blocks, one for each test case in order.  Block [n] makes the library
    calls for test case [n] (image, blob, profile, file number [n]) as far
    as none throws and ends with exactly one line: "Generated test case:
    ..." on [std::cout] when all four returned, "Error generating test case
    n: ..." on [std::cerr] right after the call that threw.  So exactly
    eight lines are printed in all. *)
Theorem GenerateIPTCTestCases_attempts_every_case (lib : ToolLibrary)
  (directory : string) (h : list Effect) :
  exists blocks,
    IptcProfileAdvancedFuzzerTool.GenerateIPTCTestCases lib directory h
    = (Returns tt, h ++ concat blocks) /\
    attempts lib directory IptcProfileAdvancedFuzzerTool.testCases 1 h blocks /\
    length blocks = 8%nat /\
    length (filter is_report (concat blocks)) = 8%nat.
Proof.
  destruct (write_test_cases_attempts lib directory
              IptcProfileAdvancedFuzzerTool.testCases 0 h
              ltac:(lia) ltac:(cbn; unfold SIZE_MAX; lia))
    as (blocks & R & A).
  exists blocks. split; [exact R|]. split; [exact A|]. split.
  - exact (attempts_length _ _ _ _ _ _ A).
  - exact (attempts_reports _ _ _ _ _ _ A).
Qed.

(** ** File names *)

Lemma substring_0_0 s : substring 0 0 s = EmptyString.
Proof. now destruct s. Qed.

Lemma append_nil_r s : (s ++ "")%string = s.
Proof. induction s as [|c s IH]; cbn; [reflexivity | now rewrite IH]. Qed.

Lemma substring_append d : forall k r,
  substring 0 k (d ++ r)
  = (substring 0 k d ++ substring 0 (k - String.length d) r)%string.
Proof.
  induction d as [|c d IH]; intros k r; cbn [String.append String.length].
  - rewrite Nat.sub_0_r. now destruct k.
  - destruct k as [|k]; cbn [substring Nat.sub String.append].
    + now rewrite substring_0_0.
    + now rewrite IH.
Qed.

Lemma substring_all s : forall k,
  (String.length s <= k)%nat -> substring 0 k s = s.
Proof.
  induction s as [|c s IH]; intros k Hk; cbn [String.length] in Hk.
  - now destruct k.
  - destruct k as [|k]; [lia|]. cbn [substring]. rewrite IH by lia.
    reflexivity.
Qed.

Lemma append_inj_l d a b : (d ++ a)%string = (d ++ b)%string -> a = b.
Proof.
  induction d as [|c d IH]; cbn [String.append]; intros E; [exact E|].
  injection E as E. exact (IH E).
Qed.

Lemma one_digit n :
  1 <= n <= 8 ->
  n = 1 \/ n = 2 \/ n = 3 \/ n = 4 \/ n = 5 \/ n = 6 \/ n = 7 \/ n = 8.
Proof. lia. Qed.

Ltac each_digit H :=
  destruct (one_digit _ H) as [-> | [-> | [-> | [-> | [-> | [-> | [-> | ->]]]]]]].

Lemma snprintf_filename_short directory n :
  (String.length directory <= 255)%nat ->
  IptcProfileAdvancedFuzzerTool.snprintf_filename directory n
  = (directory ++
     substring 0 (255 - String.length directory)
       ("/iptc_test_case_" ++ decimal n ++ ".tiff"))%string.
Proof.
  intros Hd. unfold IptcProfileAdvancedFuzzerTool.snprintf_filename.
  rewrite substring_append, substring_all by exact Hd. reflexivity.
Qed.

Lemma snprintf_filename_cut directory n :
  (238 < String.length directory)%nat ->
  IptcProfileAdvancedFuzzerTool.snprintf_filename directory n
  = substring 0 255 (directory ++ "/iptc_test_case_").
Proof.
  intros Hd. unfold IptcProfileAdvancedFuzzerTool.snprintf_filename.
  rewrite (substring_append directory 255 "/iptc_test_case_").
  rewrite (substring_append directory). f_equal.
  rewrite (substring_append "/iptc_test_case_").
  replace (255 - String.length directory
           - String.length "/iptc_test_case_")%nat with 0%nat
    by (cbn [String.length]; lia).
  now rewrite !substring_0_0, append_nil_r.
Qed.

Lemma snprintf_filename_inj directory n m :
  (String.length directory <= 238)%nat ->
  1 <= n <= 8 -> 1 <= m <= 8 ->
  IptcProfileAdvancedFuzzerTool.snprintf_filename directory n
  = IptcProfileAdvancedFuzzerTool.snprintf_filename directory m ->
  n = m.
Proof.
  intros Hd Hn Hm E.
  rewrite !snprintf_filename_short in E by lia.
  apply append_inj_l, (f_equal (get 16)) in E.
  rewrite !substring_correct1 in E by lia.
  each_digit Hn; each_digit Hm; try reflexivity;
    vm_compute in E; discriminate E.
Qed.

(** X14.  The file names of the eight test cases.  The name is cut to the
    255 characters that fit [char filename[256]].  For a directory name of
    at most 233 characters nothing is cut; up to 238 characters the eight
    names still differ, although part of the number's suffix is lost; from
    239 characters on the number itself is cut off and every test case gets
    the same file name. *)
Theorem test_case_file_names (directory : string) :
  ((String.length directory <= 233)%nat ->
   forall n, 1 <= n <= 8 ->
     IptcProfileAdvancedFuzzerTool.snprintf_filename directory n
     = (directory ++ "/iptc_test_case_" ++ decimal n ++ ".tiff")%string) /\
  ((String.length directory <= 238)%nat ->
   forall n m, 1 <= n <= 8 -> 1 <= m <= 8 ->
     IptcProfileAdvancedFuzzerTool.snprintf_filename directory n
     = IptcProfileAdvancedFuzzerTool.snprintf_filename directory m ->
     n = m) /\
  ((238 < String.length directory)%nat ->
   forall n,
     IptcProfileAdvancedFuzzerTool.snprintf_filename directory n
     = substring 0 255 (directory ++ "/iptc_test_case_")).
Proof.
  split; [|split].
  - intros Hd n Hn. rewrite snprintf_filename_short by lia. f_equal.
    apply substring_all.
    each_digit Hn;
      match goal with
      | |- (String.length ?s <= _)%nat => change (String.length s) with 22%nat
      end; lia.
  - intros Hd n m. now apply snprintf_filename_inj.
  - intros Hd n. now apply snprintf_filename_cut.
Qed.

Lemma test_case_file_names_witness :
  let long := String.concat "" (repeat "0123456789"%string 24) in
  IptcProfileAdvancedFuzzerTool.snprintf_filename "corpus" 3
  = "corpus/iptc_test_case_3.tiff"%string /\
  (IptcProfileAdvancedFuzzerTool.snprintf_filename "corpus" 1
   = IptcProfileAdvancedFuzzerTool.snprintf_filename "corpus" 2 -> 1 = 2) /\
  IptcProfileAdvancedFuzzerTool.snprintf_filename long 3
  = substring 0 255 (long ++ "/iptc_test_case_").
Proof.
  cbv zeta.
  pose proof (test_case_file_names "corpus") as (A & B & _).
  pose proof (test_case_file_names
                (String.concat "" (repeat "0123456789"%string 24)))
    as (_ & _ & C).
  split; [|split].
  - apply (A ltac:(cbn; lia) 3). lia.
  - apply (B ltac:(cbn; lia) 1 2); lia.
  - apply C. vm_compute. lia.
Defined.

Lemma written_files_app t1 t2 :
  written_files (t1 ++ t2) = written_files t1 ++ written_files t2.
Proof. apply flat_map_app. Qed.

Lemma attempt_written_files lib h blob filename success failure block :
  attempt lib h (profile_calls blob filename) [success] failure block ->
  is_report success = true ->
  (forall e, is_report (failure e) = true) ->
  written_files block = [] \/ written_files block = [filename].
Proof.
  intros [[_ ->] | (k & e & _ & _ & ->)] Hs Hf; rewrite written_files_app.
  - right. destruct success; try discriminate Hs; reflexivity.
  - specialize (Hf e).
    destruct (failure e); try discriminate Hf;
      destruct k as [|[|[|[|k]]]]; cbn; auto.
Qed.

Lemma attempts_written_files lib directory cases : forall n h blocks,
  attempts lib directory cases n h blocks ->
  (length (written_files (concat blocks)) <= length cases)%nat /\
  forall f, In f (written_files (concat blocks)) ->
    exists j, n <= j < n + Z.of_nat (length cases) /\
              f = IptcProfileAdvancedFuzzerTool.snprintf_filename directory j.
Proof.
  induction cases as [|c cases IH]; intros n h [|b blocks] A;
    cbn [attempts] in A; try contradiction.
  - split; [cbn; lia | intros f []].
  - destruct A as [A A']. destruct (IH _ _ _ A') as [L I].
    cbn [concat length]. rewrite written_files_app, length_app.
    apply attempt_written_files in A;
      [|reflexivity | intros e; reflexivity].
    split.
    + destruct A as [-> | ->]; cbn [length]; lia.
    + intros f Hf. apply in_app_or in Hf. destruct Hf as [Hf | Hf].
      * destruct A as [E | E]; rewrite E in Hf; [destruct Hf|].
        destruct Hf as [<- | []]. exists n. split; [lia | reflexivity].
      * destruct (I f Hf) as (j & Hj & ->). exists j. split; [lia | reflexivity].
Qed.

Lemma attempts_NoDup lib directory cases : forall n h blocks,
  (String.length directory <= 238)%nat ->
  1 <= n -> n + Z.of_nat (length cases) <= 9 ->
  attempts lib directory cases n h blocks ->
  NoDup (written_files (concat blocks)).
Proof.
  induction cases as [|c cases IH]; intros n h [|b blocks] Hd Hn Hmax A;
    cbn [attempts] in A; try contradiction; [constructor|].
  cbn [length] in Hmax. destruct A as [A A'].
  cbn [concat]. rewrite written_files_app.
  pose proof (IH (n + 1) (h ++ b) blocks Hd ltac:(lia) ltac:(lia) A') as N.
  apply attempt_written_files in A; [|reflexivity | intros e; reflexivity].
  destruct A as [-> | ->]; [exact N|].
  cbn [app]. constructor; [|exact N].
  intros Hin.
  destruct (attempts_written_files _ _ _ _ _ _ A') as [_ I].
  destruct (I _ Hin) as (j & Hj & E).
  apply snprintf_filename_inj in E; [lia | exact Hd | lia | lia].
Qed.

(** X15.  [GenerateIPTCTestCases] writes at most eight files.  As long as
    the directory name has at most 238 characters no test case overwrites
    the file of another one, whatever the library throws; with a longer
    directory name every file that is written has the same name, the first
    255 characters of the directory name followed by "/iptc_test_case_", so
    the test cases overwrite one another. *)
Theorem GenerateIPTCTestCases_files (lib : ToolLibrary) (directory : string)
  (h : list Effect) :
  exists t,
    snd (IptcProfileAdvancedFuzzerTool.GenerateIPTCTestCases lib directory h)
    = h ++ t /\
    (length (written_files t) <= 8)%nat /\
    ((String.length directory <= 238)%nat -> NoDup (written_files t)) /\
    ((238 < String.length directory)%nat ->
     forall f, In f (written_files t) ->
               f = substring 0 255 (directory ++ "/iptc_test_case_")).
Proof.
  destruct (write_test_cases_attempts lib directory
              IptcProfileAdvancedFuzzerTool.testCases 0 h
              ltac:(lia) ltac:(cbn; unfold SIZE_MAX; lia))
    as (blocks & R & A).
  exists (concat blocks).
  unfold IptcProfileAdvancedFuzzerTool.GenerateIPTCTestCases. rewrite R.
  destruct (attempts_written_files _ _ _ _ _ _ A) as [L I].
  split; [reflexivity|]. split; [exact L|]. split.
  - intros Hd.
    apply (attempts_NoDup lib directory
             IptcProfileAdvancedFuzzerTool.testCases (0 + 1) h blocks Hd);
      [lia | | exact A].
    change (length IptcProfileAdvancedFuzzerTool.testCases) with 8%nat. lia.
  - intros Hd f Hf. destruct (I f Hf) as (j & _ & ->).
    now apply snprintf_filename_cut.
Qed.

Lemma GenerateIPTCTestCases_files_witness :
  exists t,
    snd (IptcProfileAdvancedFuzzerTool.GenerateIPTCTestCases
           (fun _ c => match c with
                       | Magick (NewBlob (29 :: _)) => Some (MagickError "bad")
                       | _ => None
                       end)
           "corpus" [])
    = [] ++ t /\
    NoDup (written_files t).
Proof.
  destruct (GenerateIPTCTestCases_files
              (fun _ c => match c with
                          | Magick (NewBlob (29 :: _)) =>
                              Some (MagickError "bad")
                          | _ => None
                          end)
              "corpus" [])
    as (t & E & _ & N & _).
  exists t. split; [exact E | apply N; cbn; lia].
Defined.

(** ** The [main] functions *)

(** X16.  [main] of the advanced generator, started with at least the
    program name in [argv].  Unless there is exactly one argument it prints
    the usage line on [std::cerr], makes no library call, writes no file and
    returns 1.  With one argument it runs [GenerateIPTCTestCases] on it and
    returns 0 whatever the library throws, even if no test case could be
    written; eight lines are printed in all. *)
Theorem advanced_main_exit_status (lib : ToolLibrary) (argv : list string)
  (h : list Effect) :
  (0 < length argv)%nat ->
  exists t,
    IptcProfileAdvancedFuzzerTool.main lib argv h
    = (Returns (if (length argv =? 2)%nat then 0 else 1), h ++ t) /\
    (length argv <> 2%nat ->
     t = [Cerr ("Usage: " ++ hd EmptyString argv ++ " <output_directory>")]) /\
    (length argv = 2%nat ->
     snd (IptcProfileAdvancedFuzzerTool.GenerateIPTCTestCases lib
            (nth 1 argv EmptyString) h) = h ++ t /\
     length (filter is_report t) = 8%nat).
Proof.
  intros Hargc. unfold IptcProfileAdvancedFuzzerTool.main.
  destruct argv as [|program [|directory [|extra argv]]];
    cbn [length] in *; [lia | | |].
  - exists [Cerr ("Usage: " ++ program ++ " <output_directory>")].
    split; [reflexivity|]. split; [reflexivity | intros E; discriminate E].
  - destruct (write_test_cases_attempts lib directory
                IptcProfileAdvancedFuzzerTool.testCases 0 h
                ltac:(lia) ltac:(cbn; unfold SIZE_MAX; lia))
      as (blocks & R & A).
    pose proof (attempts_reports _ _ _ _ _ _ A) as N.
    fold (IptcProfileAdvancedFuzzerTool.GenerateIPTCTestCases lib directory h)
      in R.
    exists (concat blocks). cbn [Nat.eqb Z.of_nat Pos.of_succ_nat Pos.succ
                                 Z.eqb Pos.eqb negb nth].
    unfold tbind. rewrite R. split; [reflexivity|].
    split; [intros E; now elim E | intros _; split; [reflexivity | exact N]].
  - exists [Cerr ("Usage: " ++ program ++ " <output_directory>")].
    replace (Z.of_nat (S (S (S (length argv)))) =? 2) with false
      by (symmetry; apply Z.eqb_neq; lia).
    split; [reflexivity|]. split; [reflexivity | intros E; discriminate E].
Qed.

Lemma advanced_main_exit_status_witness :
  exists t,
    IptcProfileAdvancedFuzzerTool.main (fun _ _ => None)
      ["generator"; "corpus"; "extra"]%string []
    = (Returns 1, [] ++ t) /\
    (3%nat <> 2%nat ->
     t = [Cerr "Usage: generator <output_directory>"]) /\
    (3%nat = 2%nat ->
     snd (IptcProfileAdvancedFuzzerTool.GenerateIPTCTestCases
            (fun _ _ => None) "corpus" []) = [] ++ t /\
     length (filter is_report t) = 8%nat).
Proof.
  apply (advanced_main_exit_status (fun _ _ => None)
           ["generator"; "corpus"; "extra"]%string []).
  cbn. lia.
Defined.

(** X17.  [main] of the basic generator, started with at least the program
    name in [argv].  Unless there is exactly one argument it prints the
    usage line on [std::cerr], makes no library call, writes no file and
    returns 1.  With one argument it returns 0 whatever the library throws:
    the effects are those of one protected block that writes the profile to
    the file named by the argument. *)
Theorem basic_main_exit_status (lib : ToolLibrary) (garbage : list Z)
  (argv : list string) (h : list Effect) :
  length garbage = 1024%nat ->
  (0 < length argv)%nat ->
  exists t,
    IptcProfileFuzzerTool.main lib garbage argv h
    = (Returns (if (length argv =? 2)%nat then 0 else 1), h ++ t) /\
    (length argv <> 2%nat ->
     t = [Cerr ("Usage: " ++ hd EmptyString argv ++ " <output_file>")]) /\
    (length argv = 2%nat ->
     attempt lib h (profile_calls basic_profile (nth 1 argv EmptyString)) []
       (fun e => Cerr ("Error generating test case: " ++ what e)) t).
Proof.
  intros Hgarbage Hargc. unfold IptcProfileFuzzerTool.main.
  destruct argv as [|program [|filename [|extra argv]]];
    cbn [length] in *; [lia | | |].
  - exists [Cerr ("Usage: " ++ program ++ " <output_file>")].
    split; [reflexivity|]. split; [reflexivity | intros E; discriminate E].
  - destruct (GenerateIPTCTestCase_blob garbage Hgarbage)
      as (iptcData & E & B).
    destruct (basic_block lib basic_profile filename h) as (block & R & A).
    exists block. cbn [Nat.eqb Z.of_nat Pos.of_succ_nat Pos.succ
                       Z.eqb Pos.eqb negb nth].
    rewrite (tbind_step _ _ h tt (h ++ block)).
    + split; [reflexivity|].
      split; [intros N; now elim N | intros _; exact A].
    + unfold IptcProfileFuzzerTool.GenerateIPTCTestCase. rewrite E, B.
      exact R.
  - exists [Cerr ("Usage: " ++ program ++ " <output_file>")].
    replace (Z.of_nat (S (S (S (length argv)))) =? 2) with false
      by (symmetry; apply Z.eqb_neq; lia).
    split; [reflexivity|]. split; [reflexivity | intros E; discriminate E].
Qed.

Lemma basic_main_exit_status_witness :
  exists t,
    IptcProfileFuzzerTool.main (fun _ _ => Some (MagickError "no codec"))
      (repeat 0 1024) ["generator"; "case.tiff"]%string []
    = (Returns 0, [] ++ t) /\
    (2%nat <> 2%nat ->
     t = [Cerr "Usage: generator <output_file>"]) /\
    (2%nat = 2%nat ->
     attempt (fun _ _ => Some (MagickError "no codec")) []
       (profile_calls basic_profile "case.tiff") []
       (fun e => Cerr ("Error generating test case: " ++ what e)) t).
Proof.
  apply (basic_main_exit_status (fun _ _ => Some (MagickError "no codec"))
           (repeat 0 1024) ["generator"; "case.tiff"]%string []).
  - reflexivity.
  - cbn. lia.
Defined.
